(** * OllamaUI chat route: a shallow embedding of [app/api/chat/route.ts]

    The request handler [POST] receives a chat request, resolves the first
    attached image, uploads it to object storage, asks the detection service
    for a prediction and streams a formatted message back in the line-oriented
    data-stream protocol.  Two variants of the handler exist in the
    repository: one addresses the storage folder through the request payload
    ([getChatId]), the other through a cookie ([resolveChatFolderId]).

    JavaScript strings are sequences of UTF-16 code units; they are modelled
    as [list N].  Byte buffers are [list N] too, every element below 256. *)

From Stdlib Require Import NArith Lia Ascii String DecimalString DecimalN.
From stdpp Require Import base option list gmap.

Local Open Scope N_scope.
Set Warnings "-register-all".

(** ** JavaScript strings *)

Module Js.

Abbreviation jsstring := (list N).

(** An ASCII literal of the source, as code units. *)
Definition lit (s : string) : jsstring :=
  List.map N_of_ascii (list_ascii_of_string s).

Definition code_unit (c : N) : Prop := c < 65536.

(** [String.prototype.length] *)
Definition length (s : jsstring) : N := N.of_nat (List.length s).

(** [s.startsWith(p)] and the remainder after the prefix. *)
Fixpoint strip_prefix (p s : jsstring) : option jsstring :=
  match p, s with
  | [], _ => Some s
  | a :: p', b :: s' => if a =? b then strip_prefix p' s' else None
  | _ :: _, [] => None
  end.

Definition startsWith (s p : jsstring) : bool :=
  match strip_prefix p s with Some _ => true | None => false end.

(** [s.includes(p)] *)
Fixpoint includes (s p : jsstring) : bool :=
  startsWith s p ||
  match s with
  | [] => false
  | _ :: s' => includes s' p
  end.

(** [s.split(sep)] for a separator of one code unit.  The result always has
    at least one element: ["".split("\n")] is [[""]]. *)
Fixpoint split (sep : N) (s : jsstring) : list jsstring :=
  match s with
  | [] => [[]]
  | c :: s' =>
      if c =? sep then [] :: split sep s'
      else match split sep s' with
           | l :: ls => (c :: l) :: ls
           | [] => [[c]]
           end
  end.

(** [parts.join(sep)] *)
Fixpoint join (sep : jsstring) (parts : list jsstring) : jsstring :=
  match parts with
  | [] => []
  | [p] => p
  | p :: ps => p ++ sep ++ join sep ps
  end.

(** A JavaScript value is truthy unless it is [undefined], [null] or, for a
    string, empty. *)
Definition truthy (v : option jsstring) : bool :=
  match v with
  | Some (_ :: _) => true
  | _ => false
  end.

(** [a || b] on possibly missing strings *)
Definition or_else (a b : option jsstring) : option jsstring :=
  if truthy a then a else b.

(** Number to string for a non-negative integer: its decimal digits.  This
    is what JavaScript prints for the integers it holds exactly and writes
    without an exponent, those below 2^53; the statuses, clock readings,
    lengths and ages of the route are of that kind. *)
Fixpoint digits_of_uint (u : Decimal.uint) : jsstring :=
  match u with
  | Decimal.Nil => []
  | Decimal.D0 u => 48 :: digits_of_uint u
  | Decimal.D1 u => 49 :: digits_of_uint u
  | Decimal.D2 u => 50 :: digits_of_uint u
  | Decimal.D3 u => 51 :: digits_of_uint u
  | Decimal.D4 u => 52 :: digits_of_uint u
  | Decimal.D5 u => 53 :: digits_of_uint u
  | Decimal.D6 u => 54 :: digits_of_uint u
  | Decimal.D7 u => 55 :: digits_of_uint u
  | Decimal.D8 u => 56 :: digits_of_uint u
  | Decimal.D9 u => 57 :: digits_of_uint u
  end.

Definition number_toString (n : N) : jsstring := digits_of_uint (N.to_uint n).

(** Template rendering of a possibly missing string: [`${undefined}`]. *)
Definition render (v : option jsstring) : jsstring :=
  match v with
  | Some s => s
  | None => lit "undefined"
  end.

End Js.

Import Js.

(** ** Helpers of the route *)

(** [guessExtFromContentType] *)
Definition guessExtFromContentType (ct : option jsstring) : jsstring :=
  if negb (truthy ct) then lit "jpg"
  else
    let ct := default [] ct in
    if includes ct (lit "png") then lit "png"
    else if includes ct (lit "webp") then lit "webp"
    else if includes ct (lit "jpeg") then lit "jpg"
    else if includes ct (lit "gif") then lit "gif"
    else lit "jpg".

(** ** Thrown values and fallible computations *)

(** What a [throw] or a rejected promise carries: an [Error] instance with
    its [message], or some value that is not an [Error]. *)
Inductive thrown : Type :=
  | JsError (message : jsstring)
  | NonError.

Inductive result (A : Type) : Type :=
  | Ok (a : A)
  | Throw (e : thrown).
Arguments Ok {A} a.
Arguments Throw {A} e.

(** ** Unicode: surrogates and UTF-8 *)

Module Unicode.

Definition is_high (c : N) : bool := (55296 <=? c) && (c <? 56320).
Definition is_low (c : N) : bool := (56320 <=? c) && (c <? 57344).

(** The code point of a surrogate pair. *)
Definition pair_code_point (hi lo : N) : N :=
  65536 + (hi - 55296) * 1024 + (lo - 56320).

(** UTF-8 bytes of one code point. *)
Definition utf8_code_point (cp : N) : list N :=
  if cp <? 128 then [cp]
  else if cp <? 2048 then [192 + cp / 64; 128 + cp mod 64]
  else if cp <? 65536 then
    [224 + cp / 4096; 128 + (cp / 64) mod 64; 128 + cp mod 64]
  else
    [240 + cp / 262144; 128 + (cp / 4096) mod 64;
     128 + (cp / 64) mod 64; 128 + cp mod 64].

(** [new TextEncoder().encode(s)]: the string as UTF-8, an unpaired
    surrogate replaced by U+FFFD. *)
Fixpoint TextEncoder_encode (s : jsstring) : list N :=
  match s with
  | [] => []
  | c :: s' =>
      if is_high c then
        match s' with
        | d :: s'' =>
            if is_low d
            then utf8_code_point (pair_code_point c d) ++ TextEncoder_encode s''
            else utf8_code_point 65533 ++ TextEncoder_encode s'
        | [] => utf8_code_point 65533
        end
      else if is_low c then utf8_code_point 65533 ++ TextEncoder_encode s'
      else utf8_code_point c ++ TextEncoder_encode s'
  end.

(** A string without unpaired surrogates. *)
Fixpoint well_formed (s : jsstring) : bool :=
  match s with
  | [] => true
  | c :: s' =>
      if is_high c then
        match s' with
        | d :: s'' => is_low d && well_formed s''
        | [] => false
        end
      else negb (is_low c) && well_formed s'
  end.

Definition is_continuation (b : N) : bool := (128 <=? b) && (b <? 192).

(** The reading side: a strict UTF-8 decoder to UTF-16 code units.  It
    refuses truncated sequences, overlong forms, encoded surrogates and
    code points above U+10FFFF. *)
Fixpoint TextDecoder_decode (bs : list N) : option jsstring :=
  match bs with
  | [] => Some []
  | b0 :: r0 =>
      if b0 <? 128 then cons b0 <$> TextDecoder_decode r0
      else if b0 <? 192 then None
      else if b0 <? 224 then
        match r0 with
        | b1 :: r1 =>
            let cp := (b0 - 192) * 64 + (b1 - 128) in
            if is_continuation b1 && (128 <=? cp)
            then cons cp <$> TextDecoder_decode r1
            else None
        | _ => None
        end
      else if b0 <? 240 then
        match r0 with
        | b1 :: b2 :: r2 =>
            let cp := (b0 - 224) * 4096 + (b1 - 128) * 64 + (b2 - 128) in
            if is_continuation b1 && is_continuation b2 && (2048 <=? cp)
               && negb (is_high cp) && negb (is_low cp)
            then cons cp <$> TextDecoder_decode r2
            else None
        | _ => None
        end
      else if b0 <? 248 then
        match r0 with
        | b1 :: b2 :: b3 :: r3 =>
            let cp := (b0 - 240) * 262144 + (b1 - 128) * 4096
                      + (b2 - 128) * 64 + (b3 - 128) in
            if is_continuation b1 && is_continuation b2 && is_continuation b3
               && (65536 <=? cp) && (cp <? 1114112)
            then
              (fun t => (55296 + (cp - 65536) / 1024)
                        :: (56320 + (cp - 65536) mod 1024) :: t)
                <$> TextDecoder_decode r3
            else None
        | _ => None
        end
      else None
  end.

End Unicode.

Import Unicode.

(** ** JSON *)

Module JSON.

Definition quote : N := 34.
Definition backslash : N := 92.

(** Lower-case hexadecimal digit of a value below 16. *)
Definition hex_digit (d : N) : N := if d <? 10 then 48 + d else 87 + d.

(** [UnicodeEscape]: a backslash, [u] and four hexadecimal digits. *)
Definition unicode_escape (c : N) : jsstring :=
  [backslash; 117; hex_digit (c / 4096); hex_digit ((c / 256) mod 16);
   hex_digit ((c / 16) mod 16); hex_digit (c mod 16)].

(** One code unit that is no surrogate, as [QuoteJSONString] writes it. *)
Definition quote_unit (c : N) : jsstring :=
  if c =? 8 then [backslash; 98]
  else if c =? 9 then [backslash; 116]
  else if c =? 10 then [backslash; 110]
  else if c =? 12 then [backslash; 102]
  else if c =? 13 then [backslash; 114]
  else if c =? quote then [backslash; quote]
  else if c =? backslash then [backslash; backslash]
  else if c <? 32 then unicode_escape c
  else [c].

Fixpoint quote_body (s : jsstring) : jsstring :=
  match s with
  | [] => []
  | c :: s' =>
      if is_high c then
        match s' with
        | d :: s'' =>
            if is_low d then c :: d :: quote_body s''
            else unicode_escape c ++ quote_body s'
        | [] => unicode_escape c
        end
      else if is_low c then unicode_escape c ++ quote_body s'
      else quote_unit c ++ quote_body s'
  end.

(** [JSON.stringify(s)] for a string [s] *)
Definition stringify_string (s : jsstring) : jsstring :=
  quote :: quote_body s ++ [quote].

(** The values the route serialises. *)
Inductive value : Type :=
  | Str (s : jsstring)
  | Num (n : N)
  | Bool (b : bool)
  | Obj (fields : list (jsstring * value)).

(** [JSON.stringify(v)] *)
Fixpoint stringify (v : value) : jsstring :=
  match v with
  | Str s => stringify_string s
  | Num n => number_toString n
  | Bool b => if b then lit "true" else lit "false"
  | Obj fields =>
      let member (kv : jsstring * value) : jsstring :=
        stringify_string (fst kv) ++ lit ":" ++ stringify (snd kv) in
      lit "{" ++ join (lit ",") (List.map member fields) ++ lit "}"
  end.

(** Property access [v.k] *)
Fixpoint lookup_field (k : jsstring) (fields : list (jsstring * value))
  : option value :=
  match fields with
  | [] => None
  | (k', v) :: rest => if decide (k = k') then Some v else lookup_field k rest
  end.

Definition get (k : jsstring) (v : value) : option value :=
  match v with
  | Obj fields => lookup_field k fields
  | _ => None
  end.

(** The reading side: [JSON.parse] of a string literal. *)
Definition hex_value (c : N) : option N :=
  if (48 <=? c) && (c <? 58) then Some (c - 48)
  else if (97 <=? c) && (c <? 103) then Some (c - 87)
  else if (65 <=? c) && (c <? 71) then Some (c - 55)
  else None.

Definition unescape (e : N) : option N :=
  if e =? 98 then Some 8
  else if e =? 116 then Some 9
  else if e =? 110 then Some 10
  else if e =? 102 then Some 12
  else if e =? 114 then Some 13
  else if e =? quote then Some quote
  else if e =? backslash then Some backslash
  else if e =? 47 then Some 47
  else None.

(** The body of a string literal after its opening quote: the string and
    the input after the closing quote. *)
Fixpoint parse_body (s : jsstring) : option (jsstring * jsstring) :=
  match s with
  | [] => None
  | c :: r =>
      if c =? quote then Some ([], r)
      else if c =? backslash then
        match r with
        | e :: r1 =>
            if e =? 117 then
              match r1 with
              | h1 :: h2 :: h3 :: h4 :: r2 =>
                  match hex_value h1, hex_value h2, hex_value h3, hex_value h4 with
                  | Some a, Some b, Some c, Some d =>
                      prod_map (cons (a * 4096 + b * 256 + c * 16 + d)) Datatypes.id
                        <$> parse_body r2
                  | _, _, _, _ => None
                  end
              | _ => None
              end
            else
              match unescape e with
              | Some v => prod_map (cons v) Datatypes.id <$> parse_body r1
              | None => None
              end
        | [] => None
        end
      else if c <? 32 then None
      else prod_map (cons c) Datatypes.id <$> parse_body r
  end.

Definition parse_string (s : jsstring) : option jsstring :=
  match s with
  | c :: r =>
      if c =? quote then
        match parse_body r with
        | Some (v, []) => Some v
        | _ => None
        end
      else None
  | [] => None
  end.

Definition is_digit (c : N) : bool := (48 <=? c) && (c <? 58).

Definition digit_cons (c : N) (u : Decimal.uint) : Decimal.uint :=
  if c =? 48 then Decimal.D0 u
  else if c =? 49 then Decimal.D1 u
  else if c =? 50 then Decimal.D2 u
  else if c =? 51 then Decimal.D3 u
  else if c =? 52 then Decimal.D4 u
  else if c =? 53 then Decimal.D5 u
  else if c =? 54 then Decimal.D6 u
  else if c =? 55 then Decimal.D7 u
  else if c =? 56 then Decimal.D8 u
  else Decimal.D9 u.

(** The longest run of digits at the start of the input. *)
Fixpoint parse_digits (s : jsstring) : Decimal.uint * jsstring :=
  match s with
  | c :: r =>
      if is_digit c
      then let '(u, r') := parse_digits r in (digit_cons c u, r')
      else (Decimal.Nil, s)
  | [] => (Decimal.Nil, [])
  end.

Definition starts_with_digit (s : jsstring) : bool :=
  match s with
  | c :: _ => is_digit c
  | [] => false
  end.

(** [JSON.parse] of a text without white space, for the values of [value]:
    a value at the start of the input and the input after it.  [fuel]
    bounds the nesting and the number of members read. *)
Fixpoint parse_value (fuel : nat) (s : jsstring) : option (value * jsstring) :=
  match fuel with
  | O => None
  | S fuel =>
      match s with
      | [] => None
      | c :: r =>
          if c =? quote then prod_map Str Datatypes.id <$> parse_body r
          else if is_digit c then
            let '(u, r') := parse_digits s in Some (Num (N.of_uint u), r')
          else if c =? 116 then
            pair (Bool true) <$> strip_prefix (lit "rue") r
          else if c =? 102 then
            pair (Bool false) <$> strip_prefix (lit "alse") r
          else if c =? 123 then
            match r with
            | c' :: r' =>
                if c' =? 125 then Some (Obj [], r')
                else prod_map Obj Datatypes.id <$> parse_members fuel r
            | [] => None
            end
          else None
      end
  end
with parse_members (fuel : nat) (s : jsstring)
  : option (list (jsstring * value) * jsstring) :=
  match fuel with
  | O => None
  | S fuel =>
      match s with
      | c :: r =>
          if c =? quote then
            match parse_body r with
            | Some (k, c1 :: r1) =>
                if c1 =? 58 then
                  match parse_value fuel r1 with
                  | Some (v, c2 :: r2) =>
                      if c2 =? 125 then Some ([(k, v)], r2)
                      else if c2 =? 44 then
                        prod_map (cons (k, v)) Datatypes.id
                          <$> parse_members fuel r2
                      else None
                  | _ => None
                  end
                else None
            | _ => None
            end
          else None
      | [] => None
      end
  end.

(** The whole input as one value. *)
Definition parse (s : jsstring) : option value :=
  match parse_value (S (List.length s)) s with
  | Some (v, []) => Some v
  | _ => None
  end.

End JSON.

(** ** Base64, as [Buffer] implements it *)

Module Base64.

Definition pad : N := 61.

(** The character of a six-bit value in the standard alphabet. *)
Definition b64_char (v : N) : N :=
  if v <? 26 then 65 + v
  else if v <? 52 then 71 + v
  else if v <? 62 then v - 4
  else if v =? 62 then 43
  else 47.

(** The six-bit value of a byte.  The decoder of [Buffer] accepts the
    standard and the URL-safe alphabet. *)
Definition unbase64 (c : N) : option N :=
  if (65 <=? c) && (c <=? 90) then Some (c - 65)
  else if (97 <=? c) && (c <=? 122) then Some (c - 71)
  else if (48 <=? c) && (c <=? 57) then Some (c + 4)
  else if (c =? 43) || (c =? 45) then Some 62
  else if (c =? 47) || (c =? 95) then Some 63
  else None.

(** The byte the decoder reads for a code unit: its low eight bits. *)
Definition low_byte (c : N) : N := c mod 256.

(** The legal characters before the first padding character: the decoder
    looks at the low byte of every code unit, skips what is outside the
    alphabets and stops at the first [=]. *)
Fixpoint sextets (s : jsstring) : list N :=
  match s with
  | [] => []
  | c :: s' =>
      if low_byte c =? pad then []
      else match unbase64 (low_byte c) with
           | Some v => v :: sextets s'
           | None => sextets s'
           end
  end.

Fixpoint bytes_of_sextets (vs : list N) : list N :=
  match vs with
  | a :: b :: c :: d :: r =>
      (a * 4 + b / 16) :: ((b mod 16) * 16 + c / 4) :: ((c mod 4) * 64 + d)
      :: bytes_of_sextets r
  | [a; b; c] => [a * 4 + b / 16; (b mod 16) * 16 + c / 4]
  | [a; b] => [a * 4 + b / 16]
  | _ => []
  end.

(** [Buffer.from(s, "base64")] *)
Definition Buffer_from_base64 (s : jsstring) : list N :=
  bytes_of_sextets (sextets s).

(** [buffer.toString("base64")] *)
Fixpoint Buffer_toString_base64 (bs : list N) : jsstring :=
  match bs with
  | [] => []
  | [a] => [b64_char (a / 4); b64_char ((a mod 4) * 16); pad; pad]
  | [a; b] =>
      [b64_char (a / 4); b64_char ((a mod 4) * 16 + b / 16);
       b64_char ((b mod 16) * 4); pad]
  | a :: b :: c :: r =>
      b64_char (a / 4) :: b64_char ((a mod 4) * 16 + b / 16)
      :: b64_char ((b mod 16) * 4 + c / 64) :: b64_char (c mod 64)
      :: Buffer_toString_base64 r
  end.

End Base64.

Import Base64.

(** ** [parseDataUrl] *)

(** Characters the dot of a regular expression does not match. *)
Definition is_line_terminator (c : N) : bool :=
  (c =? 10) || (c =? 13) || (c =? 8232) || (c =? 8233).

Definition no_line_terminator (s : jsstring) : bool :=
  forallb (fun c => negb (is_line_terminator c)) s.

(** The tail of the pattern, matched at [s]: the literal [;base64,], then
    any characters the dot matches up to the end of the input. *)
Definition match_tail (s : jsstring) : option jsstring :=
  match strip_prefix (lit ";base64,") s with
  | Some b64 => if no_line_terminator b64 then Some b64 else None
  | None => None
  end.

(** The lazy first group (one or more characters the dot matches) with
    [acc] (reversed) already consumed: try the tail of the pattern first, and consume one more character only when the
    tail does not match. *)
Fixpoint match_lazy (acc s : jsstring) : option (jsstring * jsstring) :=
  match match_tail s with
  | Some b64 => Some (rev acc, b64)
  | None =>
      match s with
      | c :: s' =>
          if is_line_terminator c then None else match_lazy (c :: acc) s'
      | [] => None
      end
  end.

(** The [exec] of the pattern of [parseDataUrl] on [dataUrl]: the literal
    [data:] at the start of the input, the lazy first group, the tail.
    The result holds the two groups. *)
Definition exec_data_url (dataUrl : jsstring) : option (jsstring * jsstring) :=
  match strip_prefix (lit "data:") dataUrl with
  | Some (c :: s') =>
      if is_line_terminator c then None else match_lazy [c] s'
  | _ => None
  end.

Record decoded_image : Type := {
  buffer : list N;
  contentType : option jsstring
}.

Definition parseDataUrl (dataUrl : jsstring) : result decoded_image :=
  match exec_data_url dataUrl with
  | None => Throw (JsError (lit "Unsupported data URL format."))
  | Some (contentType, base64) =>
      Ok {| buffer := Buffer_from_base64 base64;
            contentType := Some contentType |}
  end.

(** ** [encodeURIComponent] *)

Definition is_alnum (c : N) : bool :=
  ((48 <=? c) && (c <=? 57)) || ((65 <=? c) && (c <=? 90))
  || ((97 <=? c) && (c <=? 122)).

(** The characters [encodeURIComponent] leaves alone: letters, digits and
    [- _ . ! ~ * ' ( )]. *)
Definition uri_unreserved (c : N) : bool :=
  is_alnum c || bool_decide (c ∈ [45; 95; 46; 33; 126; 42; 39; 40; 41]).

Definition upper_hex_digit (d : N) : N := if d <? 10 then 48 + d else 55 + d.

Definition percent_encode (bytes : list N) : jsstring :=
  flat_map (fun b => [37; upper_hex_digit (b / 16); upper_hex_digit (b mod 16)])
           bytes.

Definition URIError : thrown := JsError (lit "URI malformed").

Fixpoint encodeURIComponent (s : jsstring) : result jsstring :=
  let continue (head : jsstring) (r : result jsstring) : result jsstring :=
    match r with
    | Ok t => Ok (head ++ t)
    | Throw e => Throw e
    end in
  match s with
  | [] => Ok []
  | c :: s' =>
      if uri_unreserved c then continue [c] (encodeURIComponent s')
      else if is_low c then Throw URIError
      else if is_high c then
        match s' with
        | d :: s'' =>
            if is_low d
            then continue (percent_encode (utf8_code_point (pair_code_point c d)))
                          (encodeURIComponent s'')
            else Throw URIError
        | [] => Throw URIError
        end
      else continue (percent_encode (utf8_code_point c)) (encodeURIComponent s')
  end.

(** ** The outside world of a request *)

(** The response of the image fetch, as far as [fetchAsBuffer] reads it. *)
Record image_response : Type := {
  image_ok : bool;
  image_status : N;
  image_arrayBuffer : result (list N);
  image_content_type : option jsstring
}.

(** The input of [PutObjectCommand]. *)
Record put_object : Type := {
  Bucket : option jsstring;
  Key : jsstring;
  Body : list N;
  ContentType : jsstring
}.

(** The body of a successful prediction, with the three fields the route
    reads. *)
Record prediction : Type := {
  detection_count : N;
  labels : list jsstring;
  prediction_uid : jsstring
}.

Record prediction_response : Type := {
  prediction_ok : bool;
  prediction_status : N;
  prediction_text : result jsstring;
  prediction_json : result prediction
}.

(** Configuration, clock and the three services the handler awaits.  A
    [Throw] stands for a rejected promise. *)
Record world : Type := {
  YOLO_SERVICE : option jsstring;
  AWS_S3_BUCKET : option jsstring;
  Date_now : N;
  fetch_get : jsstring -> result image_response;
  s3_send : put_object -> result unit;
  fetch_post : jsstring -> result prediction_response
}.

(** What a request does to the outside, in order. *)
Inductive event : Type :=
  | ImageFetched (url : jsstring)
  | ObjectPut (cmd : put_object)
  | PredictionRequested (url : jsstring)
  | ConsoleError (e : thrown).

(** A computation that may throw and records the calls it makes. *)
Definition M (A : Type) : Type := (result A * list event)%type.

Definition ret {A} (a : A) : M A := (Ok a, []).
Definition throw {A} (e : thrown) : M A := (Throw e, []).
Definition lift {A} (r : result A) : M A := (r, []).
Definition call {A} (ev : event) (r : result A) : M A := (r, [ev]).

Definition bind {A B} (m : M A) (k : A -> M B) : M B :=
  match m with
  | (Ok a, log) => let '(r, log') := k a in (r, log ++ log')
  | (Throw e, log) => (Throw e, log)
  end.

Notation "x <- m ;; k" := (bind m (fun x => k))
  (at level 20, m at level 99, k at level 200, only parsing).

(** [promise.catch(() => fallback)] *)
Definition catch_with {A} (fallback : A) (r : result A) : A :=
  match r with
  | Ok a => a
  | Throw _ => fallback
  end.

(** [fetchAsBuffer] *)
Definition fetchAsBuffer (w : world) (url : jsstring) : M decoded_image :=
  res <- call (ImageFetched url) (fetch_get w url) ;;
  if negb (image_ok res)
  then throw (JsError (lit "Failed to fetch image: "
                       ++ number_toString (image_status res)))
  else
    arrayBuf <- lift (image_arrayBuffer res) ;;
    ret {| buffer := arrayBuf; contentType := image_content_type res |}.

(** ** The request *)

(** A message of the conversation; the route reads only its [id]. *)
Record chat_message : Type := { message_id : option jsstring }.

Record request_data : Type := {
  images : option (list jsstring);
  chatId : option jsstring;
  chat_id : option jsstring
}.

Record request_body : Type := {
  messages : option (list chat_message);
  selectedModel : option jsstring;
  data : option request_data
}.

(** [getChatId] *)
Definition getChatId (data : option request_data)
    (messages : option (list chat_message)) : jsstring :=
  default (lit "anonymous")
    (or_else (data ≫= chatId)
       (or_else (data ≫= chat_id)
          (or_else ((messages ≫= (fun ms : list chat_message => ms !! 0%nat))
                   ≫= message_id)
             (Some (lit "anonymous"))))).

(** ** The messages *)

Definition newline : N := 10.

(** The message of a request without an image. *)
Definition prompt_message : jsstring :=
  lit "Please provide an image for object detection.".

(** The success template. *)
Definition success_message (predictionResult : prediction) : jsstring :=
  [55357; 56589] ++ lit " **Object Detection Results**" ++ [newline]
  ++ [newline]
  ++ lit "**Detection Count:** "
  ++ number_toString (detection_count predictionResult) ++ [newline]
  ++ lit "**Detected Objects:** "
  ++ join (lit ", ") (labels predictionResult) ++ [newline]
  ++ lit "**Prediction ID:** " ++ prediction_uid predictionResult ++ [newline]
  ++ [newline]
  ++ lit "I've analyzed your image and detected "
  ++ number_toString (detection_count predictionResult)
  ++ lit " object(s). The detected objects include: "
  ++ join (lit ", ") (labels predictionResult) ++ lit ".".

(** [error instanceof Error ? error.message : "Unknown error"] *)
Definition error_text (error : thrown) : jsstring :=
  match error with
  | JsError message => message
  | NonError => lit "Unknown error"
  end.

(** The template of the catch block. *)
Definition error_message (w : world) (error : thrown) : jsstring :=
  [10060] ++ lit " **Object Detection Error**" ++ [newline]
  ++ [newline]
  ++ lit "Sorry, I encountered an error while processing your image: "
  ++ error_text error ++ [newline]
  ++ [newline]
  ++ lit "Please make sure the object detection service is reachable at http://"
  ++ render (YOLO_SERVICE w) ++ lit ".".

(** ** The detection pipeline: the body of the [try] block *)

Definition resolve_image (w : world) (imageUrl : jsstring) : M decoded_image :=
  if startsWith imageUrl (lit "data:") then lift (parseDataUrl imageUrl)
  else if startsWith imageUrl (lit "http://")
          || startsWith imageUrl (lit "https://")
  then fetchAsBuffer w imageUrl
  else throw (JsError
                (lit "Unsupported image source. Use a data URL or http(s) URL.")).

Definition detect (w : world) (chatId imageUrl : jsstring) : M jsstring :=
  image <- resolve_image w imageUrl ;;
  let ext := guessExtFromContentType (contentType image) in
  let ts := Date_now w in
  let key := chatId ++ lit "/original/" ++ number_toString ts
             ++ lit "." ++ ext in
  let cmd := {| Bucket := AWS_S3_BUCKET w;
                Key := key;
                Body := buffer image;
                ContentType :=
                  default (lit "image/jpeg")
                    (or_else (contentType image) (Some (lit "image/jpeg"))) |} in
  _ <- call (ObjectPut cmd) (s3_send w cmd) ;;
  img <- lift (encodeURIComponent key) ;;
  cid <- lift (encodeURIComponent chatId) ;;
  let yoloUrl := lit "http://" ++ render (YOLO_SERVICE w)
                 ++ lit "/predict?img=" ++ img ++ lit "&chat_id=" ++ cid in
  predictionResponse <- call (PredictionRequested yoloUrl) (fetch_post w yoloUrl) ;;
  if negb (prediction_ok predictionResponse)
  then
    let text := catch_with [] (prediction_text predictionResponse) in
    throw (JsError (lit "Prediction API error: "
                    ++ number_toString (prediction_status predictionResponse)
                    ++ lit " " ++ text))
  else
    predictionResult <- lift (prediction_json predictionResponse) ;;
    ret (success_message predictionResult).

(** [try { ... } catch (error) { ... }]: the message of a request with an
    image. *)
Definition try_detect (w : world) (chatId imageUrl : jsstring)
  : jsstring * list event :=
  match detect w chatId imageUrl with
  | (Ok message, log) => (message, log)
  | (Throw error, log) => (error_message w error, log ++ [ConsoleError error])
  end.

(** ** The stream *)

Definition usage (message : jsstring) : JSON.value :=
  JSON.Obj [(lit "promptTokens", JSON.Num 10);
            (lit "completionTokens", JSON.Num (Js.length message))].

(** The object of the [e:] frame. *)
Definition finish_step (message : jsstring) : JSON.value :=
  JSON.Obj [(lit "finishReason", JSON.Str (lit "stop"));
            (lit "usage", usage message);
            (lit "isContinued", JSON.Bool false)].

(** The object of the [d:] frame. *)
Definition finish_message (message : jsstring) : JSON.value :=
  JSON.Obj [(lit "finishReason", JSON.Str (lit "stop"));
            (lit "usage", usage message)].

(** One enqueued chunk: [encoder.encode(`${tag}:${payload}\n`)] *)
Definition frame (tag : N) (payload : jsstring) : list N :=
  TextEncoder_encode (tag :: 58 :: payload ++ [newline]).

Definition tag_text : N := 48.
Definition tag_finish_step : N := 101.
Definition tag_finish_message : N := 100.

(** The loop of [start] at index [i]. *)
Definition text_frame (lines : list jsstring) (i : nat) : list N :=
  let line := default [] (lines !! i) in
  let content :=
    if (i <? List.length lines - 1)%nat then line ++ [newline] else line in
  frame tag_text (JSON.stringify_string content).

(** The chunks [start] enqueues before it closes the stream. *)
Definition data_stream (message : jsstring) : list (list N) :=
  let lines := split newline message in
  List.map (text_frame lines) (seq 0 (List.length lines))
  ++ [frame tag_finish_step (JSON.stringify (finish_step message));
      frame tag_finish_message (JSON.stringify (finish_message message))].

Record response : Type := {
  body : list (list N);
  headers : list (jsstring * jsstring)
}.

Definition stream_headers : list (jsstring * jsstring) :=
  [(lit "Content-Type", lit "text/plain; charset=utf-8");
   (lit "X-Vercel-AI-Data-Stream", lit "v1")].

(** ** [POST], addressed by the request payload *)

(** The [ResponseMessage] of a request and the calls made for it. *)
Definition POST_message (w : world) (req : request_body)
  : jsstring * list event :=
  match data req ≫= images with
  | Some (imageUrl :: _) =>
      try_detect w (getChatId (data req) (messages req)) imageUrl
  | _ => (prompt_message, [])
  end.

Definition POST (w : world) (req : request_body) : response * list event :=
  let '(message, log) := POST_message w req in
  ({| body := data_stream message; headers := stream_headers |}, log).

(** ** The variant addressed by a cookie *)

Module CookieRoute.

(** What [resolveChatFolderId] reads: the cookies of the request, the
    clock as [new Date().toISOString()] and the value of [randomUUID()]. *)
Record session_world : Type := {
  cookies : gmap (list N) (list N);
  toISOString : jsstring;
  randomUUID : jsstring
}.

Record chat_folder : Type := {
  folder_chatId : jsstring;
  setCookieHeader : option jsstring
}.

Definition cookie_name : jsstring := lit "chatFolderId".

(** [resolveChatFolderId] *)
Definition resolveChatFolderId (sw : session_world) : chat_folder :=
  let jar := cookies sw in
  let existing := jar !! cookie_name in
  if truthy existing then
    {| folder_chatId := default [] existing; setCookieHeader := None |}
  else
    let today := default [] (split 84 (toISOString sw) !! 0%nat) in
    let shortRand := default [] (split 45 (randomUUID sw) !! 0%nat) in
    let folder := today ++ lit "-" ++ shortRand in
    let maxAge := 60 * 60 * 24 * 90 in
    let setCookie :=
      lit "chatFolderId=" ++ folder ++ lit "; Path=/; Max-Age="
      ++ number_toString maxAge ++ lit "; SameSite=Lax" in
    {| folder_chatId := folder; setCookieHeader := Some setCookie |}.

(** [POST] of the cookie variant. *)
Definition POST_message (w : world) (sw : session_world) (req : request_body)
  : jsstring * list event :=
  let chatId := folder_chatId (resolveChatFolderId sw) in
  match data req ≫= images with
  | Some (imageUrl :: _) => try_detect w chatId imageUrl
  | _ => (prompt_message, [])
  end.

Definition POST (w : world) (sw : session_world) (req : request_body)
  : response * list event :=
  let '(message, log) := POST_message w sw req in
  let headers :=
    match setCookieHeader (resolveChatFolderId sw) with
    | Some setCookie => stream_headers ++ [(lit "Set-Cookie", setCookie)]
    | None => stream_headers
    end in
  ({| body := data_stream message; headers := headers |}, log).

(** ** The client of the cookie variant *)

(** [s] up to the first [sep], and what follows that [sep]. *)
Fixpoint cut (sep : N) (s : jsstring) : jsstring * option jsstring :=
  match s with
  | [] => ([], None)
  | c :: s' =>
      if c =? sep then ([], Some s')
      else let '(before, after) := cut sep s' in (c :: before, after)
  end.

Definition is_space (c : N) : bool := (c =? 32) || (c =? 9).

Fixpoint trim_start (s : jsstring) : jsstring :=
  match s with
  | c :: s' => if is_space c then trim_start s' else s
  | [] => []
  end.

Definition trim (s : jsstring) : jsstring :=
  rev (trim_start (rev (trim_start s))).

(** ASCII lower case, for the names that are compared without regard to
    case. *)
Definition lower (s : jsstring) : jsstring :=
  List.map (fun c => if (65 <=? c) && (c <=? 90) then c + 32 else c) s.

(** The seconds of a [Max-Age] value: digits, or digits after a minus
    sign, which count as zero. *)
Definition delta_seconds (v : jsstring) : option N :=
  let digits (ds : jsstring) : bool :=
    match ds with
    | [] => false
    | _ :: _ => forallb JSON.is_digit ds
    end in
  match v with
  | [] => None
  | c :: ds =>
      if (c =? 45) && digits ds then Some 0
      else if digits v then Some (N.of_uint (fst (JSON.parse_digits v)))
      else None
  end.

(** The last valid [Max-Age] among the attributes of a header. *)
Fixpoint max_age (attrs : list jsstring) : option N :=
  match attrs with
  | [] => None
  | a :: rest =>
      match max_age rest with
      | Some n => Some n
      | None =>
          let '(name, value) := cut 61 a in
          if bool_decide (lower (trim name) = lit "max-age")
          then value ≫= (fun v => delta_seconds (trim v))
          else None
      end
  end.

(** A [Set-Cookie] header as a client reads it: the name and the value of
    the cookie, the text up to the first semicolon taken apart at its first
    [=], and the [Max-Age] of the attributes after it.  A header without
    [=] or with an empty name is ignored. *)
Definition read_set_cookie (h : jsstring)
  : option (jsstring * jsstring * option N) :=
  let '(cookie, attrs) := cut 59 h in
  match cut 61 cookie with
  | (name, Some value) =>
      if bool_decide (trim name = []) then None
      else Some (trim name, trim value, max_age (split 59 (default [] attrs)))
  | (_, None) => None
  end.

(** The cookies of the client after a header: a cookie whose [Max-Age] is
    zero is dropped, any other is kept under its name. *)
Definition store_set_cookie (jar : gmap (list N) (list N)) (h : jsstring)
  : gmap (list N) (list N) :=
  match read_set_cookie h with
  | Some (name, value, Some 0) => delete name jar
  | Some (name, value, _) => <[name := value]> jar
  | None => jar
  end.

(** The [Set-Cookie] header of a response. *)
Definition set_cookie_of (resp : response) : option jsstring :=
  snd <$> List.find (fun nv => bool_decide (lower (fst nv) = lit "set-cookie"))
                    (headers resp).

(** The cookies of the client after a response. *)
Definition receive (jar : gmap (list N) (list N)) (resp : response)
  : gmap (list N) (list N) :=
  match set_cookie_of resp with
  | Some h => store_set_cookie jar h
  | None => jar
  end.

(** A conversation: requests at the given clock readings and random
    values, each sent with the cookies the client holds after the response
    to the request before.  The result lists what [resolveChatFolderId]
    returns for every request. *)
Fixpoint conversation (w : world) (jar : gmap (list N) (list N))
    (calls : list (jsstring * jsstring * request_body)) : list chat_folder :=
  match calls with
  | [] => []
  | (iso, uuid, req) :: rest =>
      let sw := {| cookies := jar; toISOString := iso; randomUUID := uuid |} in
      resolveChatFolderId sw
      :: conversation w (receive jar (fst (POST w sw req))) rest
  end.

(** The characters of a clock reading and of a UUID: letters, digits,
    hyphens, colons and full stops. *)
Definition cookie_char (c : N) : bool :=
  is_alnum c || (c =? 45) || (c =? 58) || (c =? 46).

Definition cookie_text (s : jsstring) : bool := forallb cookie_char s.

End CookieRoute.

(** ** The reading side of the stream *)

Module Reader.

(** A chunk as text, taken apart into its tag and its payload: the tag, a
    colon, the payload, a line break. *)
Definition read_frame (chunk : list N) : option (N * jsstring) :=
  match TextDecoder_decode chunk with
  | Some (tag :: colon :: rest) =>
      if colon =? 58 then
        match rev rest with
        | nl :: payload => if nl =? newline then Some (tag, rev payload) else None
        | [] => None
        end
      else None
  | _ => None
  end.

Definition frame_tag (chunk : list N) : option N := fst <$> read_frame chunk.

(** The JSON-decoded payload of a [0:] frame. *)
Definition read_text (chunk : list N) : option jsstring :=
  match read_frame chunk with
  | Some (tag, payload) =>
      if tag =? tag_text then JSON.parse_string payload else None
  | None => None
  end.

(** The JSON-decoded payload of a frame with the given tag. *)
Definition read_object (tag : N) (chunk : list N) : option JSON.value :=
  match read_frame chunk with
  | Some (tag', payload) => if tag' =? tag then JSON.parse payload else None
  | None => None
  end.

(** The JSON-decoded payloads of the [0:] frames of a stream, in order. *)
Fixpoint text_parts (stream : list (list N)) : option (list jsstring) :=
  match stream with
  | [] => Some []
  | chunk :: rest =>
      match read_frame chunk with
      | Some (tag, payload) =>
          if tag =? tag_text then
            match JSON.parse_string payload, text_parts rest with
            | Some part, Some parts => Some (part :: parts)
            | _, _ => None
            end
          else text_parts rest
      | None => None
      end
  end.

(** The text a client assembles from a stream. *)
Definition received_text (stream : list (list N)) : option jsstring :=
  List.concat (A:=N) <$> text_parts stream.

(** A field of [usage] in a finish object. *)
Definition usage_field (name : jsstring) (v : JSON.value) : option JSON.value :=
  JSON.get (lit "usage") v ≫= JSON.get name.

End Reader.

(** The lines of a message as the stream carries them: each line except
    the last with its line break again. *)
Fixpoint resuffix (lines : list jsstring) : list jsstring :=
  match lines with
  | [] => []
  | [l] => [l]
  | l :: ls => (l ++ [newline]) :: resuffix ls
  end.

(** ** The extension table, as the description of the route words it *)

(** The ordered table of content-type fragments and their extensions. *)
Definition extension_table : list (jsstring * jsstring) :=
  [(lit "png", lit "png"); (lit "webp", lit "webp");
   (lit "jpeg", lit "jpg"); (lit "gif", lit "gif")].

(** The extension of the first entry whose fragment occurs in [ct]. *)
Fixpoint first_match (table : list (jsstring * jsstring)) (ct : jsstring)
  : option jsstring :=
  match table with
  | [] => None
  | (fragment, ext) :: rest =>
      if includes ct fragment then Some ext else first_match rest ct
  end.

(** Extension inference by the table: the first match, [jpg] without a
    content type or without a match. *)
Definition extension_by_table (ct : option jsstring) : jsstring :=
  match ct with
  | Some ct => default (lit "jpg") (first_match extension_table ct)
  | None => lit "jpg"
  end.

(** ** Measures used in the proofs *)

(** Strings of the ASCII range. *)
Definition ascii_only (s : jsstring) : Prop := Forall (fun c => c < 128) s.

(** Bytes. *)
Definition bytes (bs : list N) : Prop := Forall (fun b => b < 256) bs.

(** The number of nodes of a value: enough fuel for [JSON.parse_value] to
    read it back. *)
Fixpoint weight (v : JSON.value) : nat :=
  match v with
  | JSON.Obj fields =>
      S (list_sum (List.map (fun kv => S (weight (snd kv))) fields))
  | _ => 1%nat
  end.

(** A member of an object as [JSON.stringify] writes it. *)
Definition member_text (kv : jsstring * JSON.value) : jsstring :=
  JSON.stringify_string (fst kv) ++ lit ":" ++ JSON.stringify (snd kv).

(** The weight of the members of an object. *)
Definition members_weight (fields : list (jsstring * JSON.value)) : nat :=
  list_sum (List.map (fun kv => S (weight (snd kv))) fields).
(** ** The failures of the image reference, by name *)

(** What [parseDataUrl] throws. *)
Definition MalformedInlineImage : thrown :=
  JsError (lit "Unsupported data URL format.").

(** What the route throws for a reference it cannot resolve. *)
Definition UnsupportedImageSource : thrown :=
  JsError (lit "Unsupported image source. Use a data URL or http(s) URL.").

(** ** Sample worlds and requests *)

Definition sample_prediction : prediction :=
  {| detection_count := 3;
     labels := [lit "cat"; lit "dog"; lit "car"];
     prediction_uid := lit "abc123" |}.

(** A world in which every service answers. *)
Definition sample_world : world :=
  {| YOLO_SERVICE := Some (lit "yolo:8080");
     AWS_S3_BUCKET := Some (lit "images");
     Date_now := 1700000000000;
     fetch_get := fun _ =>
       Ok {| image_ok := true; image_status := 200;
             image_arrayBuffer := Ok [137; 80; 78; 71];
             image_content_type := Some (lit "image/png") |};
     s3_send := fun _ => Ok tt;
     fetch_post := fun _ =>
       Ok {| prediction_ok := true; prediction_status := 200;
             prediction_text := Ok [];
             prediction_json := Ok sample_prediction |} |}.

(** The same world with a storage service that refuses the upload. *)
Definition storage_down : world :=
  {| YOLO_SERVICE := YOLO_SERVICE sample_world;
     AWS_S3_BUCKET := AWS_S3_BUCKET sample_world;
     Date_now := Date_now sample_world;
     fetch_get := fetch_get sample_world;
     s3_send := fun _ => Throw (JsError (lit "Access Denied"));
     fetch_post := fetch_post sample_world |}.

(** A request with the given image references and nothing else. *)
Definition request_with (urls : list jsstring) : request_body :=
  {| messages := None;
     selectedModel := None;
     data := Some {| images := Some urls; chatId := None; chat_id := None |} |}.

(** A world whose image host answers 404. *)
Definition image_missing : world :=
  {| YOLO_SERVICE := YOLO_SERVICE sample_world;
     AWS_S3_BUCKET := AWS_S3_BUCKET sample_world;
     Date_now := Date_now sample_world;
     fetch_get := fun _ =>
       Ok {| image_ok := false; image_status := 404;
             image_arrayBuffer := Ok [];
             image_content_type := Some (lit "text/html") |};
     s3_send := s3_send sample_world;
     fetch_post := fetch_post sample_world |}.

(** A world whose detection service answers 503 with a body. *)
Definition detector_down : world :=
  {| YOLO_SERVICE := YOLO_SERVICE sample_world;
     AWS_S3_BUCKET := AWS_S3_BUCKET sample_world;
     Date_now := Date_now sample_world;
     fetch_get := fetch_get sample_world;
     s3_send := s3_send sample_world;
     fetch_post := fun _ =>
       Ok {| prediction_ok := false; prediction_status := 503;
             prediction_text := Ok (lit "overloaded");
             prediction_json := Throw NonError |} |}.

(** ** Reading the log of a request *)

(** The step of the handler an event belongs to. *)
Definition stage (ev : event) : nat :=
  match ev with
  | ImageFetched _ => 0
  | ObjectPut _ => 1
  | PredictionRequested _ => 2
  | ConsoleError _ => 3
  end.

(** The command of the upload, as the handler builds it for an image. *)
Definition upload_of (w : world) (chatId : jsstring) (image : decoded_image)
  : put_object :=
  {| Bucket := AWS_S3_BUCKET w;
     Key := chatId ++ lit "/original/" ++ number_toString (Date_now w)
            ++ lit "." ++ guessExtFromContentType (contentType image);
     Body := buffer image;
     ContentType :=
       default (lit "image/jpeg")
         (or_else (contentType image) (Some (lit "image/jpeg"))) |}.

(** The address of the prediction request for a key and a chat id, both
    already encoded. *)
Definition prediction_url (w : world) (img cid : jsstring) : jsstring :=
  lit "http://" ++ render (YOLO_SERVICE w)
  ++ lit "/predict?img=" ++ img ++ lit "&chat_id=" ++ cid.

(** ** The steps of [detect], named *)

(** What the handler makes of the response of the detection service. *)
Definition read_prediction (predictionResponse : prediction_response)
  : M jsstring :=
  if negb (prediction_ok predictionResponse)
  then
    let text := catch_with [] (prediction_text predictionResponse) in
    throw (JsError (lit "Prediction API error: "
                    ++ number_toString (prediction_status predictionResponse)
                    ++ lit " " ++ text))
  else
    predictionResult <- lift (prediction_json predictionResponse) ;;
    ret (success_message predictionResult).

(** The request to the detection service for an uploaded key. *)
Definition request_prediction (w : world) (chatId key : jsstring) : M jsstring :=
  img <- lift (encodeURIComponent key) ;;
  cid <- lift (encodeURIComponent chatId) ;;
  predictionResponse <-
    call (PredictionRequested (prediction_url w img cid))
         (fetch_post w (prediction_url w img cid)) ;;
  read_prediction predictionResponse.

(** The upload of a resolved image and what follows it. *)
Definition upload_and_predict (w : world) (chatId : jsstring)
    (image : decoded_image) : M jsstring :=
  _ <- call (ObjectPut (upload_of w chatId image))
            (s3_send w (upload_of w chatId image)) ;;
  request_prediction w chatId (Key (upload_of w chatId image)).

(** The characters of an encoded URI component: the unreserved ones and
    the percent sign. *)
Definition url_safe (c : N) : bool := uri_unreserved c || (c =? 37).

(** The number of line breaks of a string. *)
Definition line_breaks (s : jsstring) : nat :=
  List.length (List.filter (N.eqb newline) s).

(** * Proofs *)

Ltac Zify.zify_post_hook ::= Z.to_euclidean_division_equations.

(** Case analysis on the comparisons of the goal. *)
Ltac case_cmp :=
  repeat match goal with
    | |- context [N.ltb ?a ?b] => destruct (N.ltb_spec a b)
    | |- context [N.leb ?a ?b] => destruct (N.leb_spec a b)
    | |- context [N.eqb ?a ?b] => destruct (N.eqb_spec a b)
    end.

Section JsonStrings.

Import JSON.

Lemma hex_value_digit d : d < 16 -> hex_value (hex_digit d) = Some d.
Proof.
  intros Hd. unfold hex_value, hex_digit.
  case_cmp; simpl; try lia; f_equal; lia.
Qed.

Lemma parse_unicode_escape c rest :
  c < 65536 ->
  parse_body (unicode_escape c ++ rest)
  = prod_map (cons c) Datatypes.id <$> parse_body rest.
Proof.
  intros Hc. unfold unicode_escape. cbn [app parse_body].
  change (backslash =? quote) with false. change (backslash =? backslash) with true.
  change (117 =? 117) with true. cbv iota.
  rewrite !hex_value_digit by lia.
  replace (c / 4096 * 4096 + (c / 256) mod 16 * 256 + (c / 16) mod 16 * 16 + c mod 16)
    with c by lia.
  reflexivity.
Qed.

Lemma surrogate_code_unit c : is_high c || is_low c = true -> c < 65536.
Proof. unfold is_high, is_low. case_cmp; simpl; intros; try lia; discriminate. Qed.

Lemma parse_quote_unit c rest :
  is_high c = false -> is_low c = false ->
  parse_body (quote_unit c ++ rest)
  = prod_map (cons c) Datatypes.id <$> parse_body rest.
Proof.
  intros Hh Hl. unfold quote_unit, quote, backslash.
  destruct (N.eqb_spec c 8) as [->|]; [reflexivity|].
  destruct (N.eqb_spec c 9) as [->|]; [reflexivity|].
  destruct (N.eqb_spec c 10) as [->|]; [reflexivity|].
  destruct (N.eqb_spec c 12) as [->|]; [reflexivity|].
  destruct (N.eqb_spec c 13) as [->|]; [reflexivity|].
  destruct (N.eqb_spec c 34) as [->|]; [reflexivity|].
  destruct (N.eqb_spec c 92) as [->|]; [reflexivity|].
  destruct (N.ltb_spec c 32).
  - apply parse_unicode_escape. lia.
  - cbn [app parse_body]. unfold quote, backslash.
    case_cmp; try lia. reflexivity.
Qed.

(** A string literal is read back as the string it was written from,
    whatever follows its closing quote. *)
Lemma parse_quote_body s rest :
  parse_body (quote_body s ++ quote :: rest) = Some (s, rest).
Proof.
  remember (List.length s) as n eqn:Hn.
  revert s Hn. induction (lt_wf n) as [n _ IH]. intros s ->.
  destruct s as [|c s']; [reflexivity|].
  cbn [quote_body].
  destruct (is_high c) eqn:Hh.
  - destruct s' as [|d s''].
    + rewrite parse_unicode_escape
        by (apply surrogate_code_unit; rewrite Hh; reflexivity).
      reflexivity.
    + destruct (is_low d) eqn:Hl.
      * cbn [app parse_body].
        assert (Hc : (c =? quote) = false /\ (c =? backslash) = false /\ (c <? 32) = false).
        { revert Hh. unfold is_high, quote, backslash. case_cmp; simpl; intros; try lia; try discriminate; auto. }
        assert (Hd : (d =? quote) = false /\ (d =? backslash) = false /\ (d <? 32) = false).
        { revert Hl. unfold is_low, quote, backslash. case_cmp; simpl; intros; try lia; try discriminate; auto. }
        destruct Hc as (-> & -> & ->). destruct Hd as (-> & -> & ->).
        rewrite (IH (List.length s'')) by (cbn; lia || reflexivity). reflexivity.
      * rewrite <- app_assoc, parse_unicode_escape
          by (apply surrogate_code_unit; rewrite Hh; reflexivity).
        rewrite (IH (List.length (d :: s''))) by (cbn; lia || reflexivity). reflexivity.
  - destruct (is_low c) eqn:Hl.
    + rewrite <- app_assoc, parse_unicode_escape
        by (apply surrogate_code_unit; rewrite Hl, orb_true_r; reflexivity).
      rewrite (IH (List.length s')) by (cbn; lia || reflexivity). reflexivity.
    + rewrite <- app_assoc, parse_quote_unit by assumption.
      rewrite (IH (List.length s')) by (cbn; lia || reflexivity). reflexivity.
Qed.

Lemma parse_stringify_string s : parse_string (stringify_string s) = Some s.
Proof.
  unfold parse_string, stringify_string. change (quote =? quote) with true.
  cbv iota. rewrite parse_quote_body. reflexivity.
Qed.

End JsonStrings.

(** Case analysis on one comparison at a time, closing the branches that
    contradict the hypotheses. *)
Ltac cmp_lia :=
  repeat (match goal with
    | |- context [N.ltb ?a ?b] => destruct (N.ltb_spec a b)
    | |- context [N.leb ?a ?b] => destruct (N.leb_spec a b)
    | |- context [N.eqb ?a ?b] => destruct (N.eqb_spec a b)
    end; try lia; cbn [andb orb negb]).

Section Utf8.

Lemma decode_code_point cp bs :
  cp < 65536 -> is_high cp = false -> is_low cp = false ->
  TextDecoder_decode (utf8_code_point cp ++ bs)
  = cons cp <$> TextDecoder_decode bs.
Proof.
  unfold is_high, is_low, utf8_code_point. intros Hcp Hh Hl.
  destruct (N.ltb_spec cp 128); [|destruct (N.ltb_spec cp 2048);
    [|destruct (N.ltb_spec cp 65536); [|lia]]];
    cbn [app TextDecoder_decode]; unfold is_continuation, is_high, is_low.
  - cmp_lia. reflexivity.
  - cmp_lia. do 2 f_equal. lia.
  - revert Hh Hl. cmp_lia; intros; try discriminate; do 2 f_equal; lia.
Qed.

Lemma decode_surrogate_pair c d bs :
  is_high c = true -> is_low d = true ->
  TextDecoder_decode (utf8_code_point (pair_code_point c d) ++ bs)
  = (fun t => c :: d :: t) <$> TextDecoder_decode bs.
Proof.
  unfold is_high, is_low, utf8_code_point, pair_code_point. intros Hh Hl.
  assert (55296 <= c < 56320) as Hc by (revert Hh; cmp_lia; discriminate).
  assert (56320 <= d < 57344) as Hd by (revert Hl; cmp_lia; discriminate).
  clear Hh Hl.
  remember (65536 + (c - 55296) * 1024 + (d - 56320)) as cp eqn:Hcp.
  assert (65536 <= cp < 1114112) by lia.
  destruct (N.ltb_spec cp 128); [lia|]. destruct (N.ltb_spec cp 2048); [lia|].
  destruct (N.ltb_spec cp 65536); [lia|].
  cbn [app TextDecoder_decode]; unfold is_continuation.
  cmp_lia.
  replace ((240 + cp / 262144 - 240) * 262144 + (128 + (cp / 4096) mod 64 - 128) * 4096
           + (128 + (cp / 64) mod 64 - 128) * 64 + (128 + cp mod 64 - 128)) with cp by lia.
  replace (55296 + (cp - 65536) / 1024) with c by lia.
  replace (56320 + (cp - 65536) mod 1024) with d by lia.
  reflexivity.
Qed.

(** Decoding undoes encoding on well-formed strings. *)
Lemma decode_encode s :
  Forall code_unit s -> well_formed s = true ->
  TextDecoder_decode (TextEncoder_encode s) = Some s.
Proof.
  remember (List.length s) as n eqn:Hn.
  revert s Hn. induction (lt_wf n) as [n _ IH]. intros s -> Hcu Hwf.
  destruct s as [|c s']; [reflexivity|].
  cbn [TextEncoder_encode well_formed] in *.
  apply Forall_cons in Hcu as [Hc Hcu].
  destruct (is_high c) eqn:Hh.
  - destruct s' as [|d s'']; [discriminate|].
    apply andb_prop in Hwf as [Hl Hwf]. rewrite Hl.
    apply Forall_cons in Hcu as [_ Hcu].
    rewrite decode_surrogate_pair by assumption.
    rewrite (IH (List.length s'')) by (cbn; lia || reflexivity || assumption).
    reflexivity.
  - apply andb_prop in Hwf as [Hl Hwf]. apply negb_true_iff in Hl. rewrite Hl.
    rewrite decode_code_point by assumption.
    rewrite (IH (List.length s')) by (cbn; lia || reflexivity || assumption).
    reflexivity.
Qed.

Lemma well_formed_app a b :
  well_formed a = true -> well_formed (a ++ b) = well_formed b.
Proof.
  remember (List.length a) as n eqn:Hn.
  revert a Hn. induction (lt_wf n) as [n _ IH]. intros a -> Hwf.
  destruct a as [|c a']; [reflexivity|].
  cbn [well_formed app] in *.
  destruct (is_high c).
  - destruct a' as [|d a'']; [discriminate|].
    apply andb_prop in Hwf as [Hl Hwf]. cbn [app]. rewrite Hl. cbn [andb].
    apply (IH (List.length a'')); cbn; lia || reflexivity || assumption.
  - apply andb_prop in Hwf as [Hl Hwf]. rewrite Hl. cbn [andb].
    apply (IH (List.length a')); cbn; lia || reflexivity || assumption.
Qed.

End Utf8.

Section Strings.

Lemma strip_prefix_app p s : strip_prefix p (p ++ s) = Some s.
Proof.
  induction p as [|a p IH]; [reflexivity|].
  cbn. rewrite N.eqb_refl. exact IH.
Qed.

Lemma strip_prefix_Some p s r : strip_prefix p s = Some r -> s = p ++ r.
Proof.
  revert s. induction p as [|a p IH]; intros s; cbn.
  - congruence.
  - destruct s as [|b s]; [discriminate|].
    destruct (N.eqb_spec a b) as [->|]; [|discriminate].
    intros H. f_equal. apply IH, H.
Qed.

Lemma startsWith_app p s : startsWith (p ++ s) p = true.
Proof. unfold startsWith. rewrite strip_prefix_app. reflexivity. Qed.

Lemma includes_unfold s p :
  includes s p
  = startsWith s p || match s with [] => false | _ :: s' => includes s' p end.
Proof. destruct s; reflexivity. Qed.

(** A string includes each of its infixes. *)
Lemma includes_app a p b : includes (a ++ p ++ b) p = true.
Proof.
  induction a as [|c a IH].
  - rewrite includes_unfold. cbn [app]. rewrite startsWith_app. reflexivity.
  - cbn [app includes]. rewrite IH. apply orb_true_r.
Qed.

Lemma split_nonempty sep s : exists l ls, split sep s = l :: ls.
Proof.
  destruct s as [|c s]; cbn; [eauto|].
  destruct (c =? sep); [eauto|]. destruct (split sep s); eauto.
Qed.

Lemma resuffix_length lines : List.length (resuffix lines) = List.length lines.
Proof.
  induction lines as [|l [|l' ls] IH]; try reflexivity.
  change (resuffix (l :: l' :: ls)) with ((l ++ [newline]) :: resuffix (l' :: ls)).
  cbn [List.length]. rewrite IH. reflexivity.
Qed.

(** The lines of a message, each but the last with its line break again,
    concatenate to the message. *)
Lemma concat_resuffix_split s :
  List.concat (resuffix (split newline s)) = s.
Proof.
  induction s as [|c s IH]; [reflexivity|].
  cbn [split]. destruct (split_nonempty newline s) as (l & ls & Hs).
  rewrite Hs in *. destruct (N.eqb_spec c newline) as [->|_].
  - change (resuffix ([] :: l :: ls)) with (([] ++ [newline]) :: resuffix (l :: ls)).
    cbn [List.concat app]. rewrite IH. reflexivity.
  - destruct ls as [|l' ls].
    + cbn in *. rewrite app_nil_r in *. congruence.
    + change (resuffix ((c :: l) :: l' :: ls))
        with (((c :: l) ++ [newline]) :: resuffix (l' :: ls)).
      change (resuffix (l :: l' :: ls))
        with ((l ++ [newline]) :: resuffix (l' :: ls)) in IH.
      cbn [List.concat app] in *. rewrite IH. reflexivity.
Qed.

(** The loop over the indices frames the re-suffixed lines in order. *)
Lemma text_frames_resuffix lines :
  List.map (text_frame lines) (seq 0 (List.length lines))
  = List.map (fun l => frame tag_text (JSON.stringify_string l)) (resuffix lines).
Proof.
  induction lines as [|l [|l' ls] IH]; try reflexivity.
  change (resuffix (l :: l' :: ls)) with ((l ++ [newline]) :: resuffix (l' :: ls)).
  cbn [List.map]. rewrite <- IH.
  change (List.length (l :: l' :: ls)) with (S (List.length (l' :: ls))).
  cbn [seq List.map]. f_equal.
  rewrite <- seq_shift, List.map_map.
  apply List.map_ext_in. intros i Hi%in_seq.
  unfold text_frame. cbn [lookup list_lookup List.length] in *.
  replace (S i <? S (S (List.length ls)) - 1)%nat
    with (i <? S (List.length ls) - 1)%nat; [reflexivity|].
  destruct (Nat.ltb_spec i (S (List.length ls) - 1)),
    (Nat.ltb_spec (S i) (S (S (List.length ls)) - 1)); lia || reflexivity.
Qed.

End Strings.

Section WellFormed.

Import JSON.

Lemma ascii_only_forallb s :
  forallb (fun c => c <? 128) s = true -> ascii_only s.
Proof.
  induction s as [|c s IH]; cbn; [constructor|].
  intros [Hc Hs]%andb_prop. constructor; [apply N.ltb_lt, Hc|apply IH, Hs].
Qed.

Lemma ascii_only_code_units s : ascii_only s -> Forall code_unit s.
Proof.
  intros H. eapply Forall_impl; [exact H|].
  unfold code_unit. intros; cbn in *; lia.
Qed.

Lemma not_surrogate c : c < 55296 -> is_high c = false /\ is_low c = false.
Proof. unfold is_high, is_low. intros. split; cmp_lia; reflexivity. Qed.

Lemma ascii_only_well_formed s : ascii_only s -> well_formed s = true.
Proof.
  induction 1 as [|c s Hc _ IH]; [reflexivity|].
  cbn [well_formed]. destruct (not_surrogate c) as [-> ->]; [lia|].
  exact IH.
Qed.

Lemma well_formed_ascii_app a b :
  ascii_only a -> well_formed (a ++ b) = well_formed b.
Proof. intros. apply well_formed_app, ascii_only_well_formed. assumption. Qed.

Lemma ascii_only_digits u : ascii_only (digits_of_uint u).
Proof. induction u; constructor; assumption || lia. Qed.

Lemma ascii_only_number n : ascii_only (number_toString n).
Proof. apply ascii_only_digits. Qed.

Lemma hex_digit_ascii d : d < 16 -> hex_digit d < 128.
Proof. unfold hex_digit. intros. destruct (d <? 10); lia. Qed.

Lemma ascii_only_unicode_escape c : c < 65536 -> ascii_only (unicode_escape c).
Proof.
  intros Hc. unfold unicode_escape, backslash.
  repeat (constructor; [first [apply hex_digit_ascii; lia | lia]|]).
  constructor.
Qed.

Lemma well_formed_quote_unit c rest :
  is_high c = false -> is_low c = false ->
  well_formed (quote_unit c ++ rest) = well_formed rest.
Proof.
  intros Hh Hl. unfold quote_unit, quote, backslash.
  repeat match goal with
    | |- context [if ?a =? ?b then _ else _] =>
        destruct (a =? b); [reflexivity|]
    end.
  destruct (N.ltb_spec c 32).
  - apply well_formed_ascii_app, ascii_only_unicode_escape. lia.
  - cbn [app well_formed]. rewrite Hh, Hl. reflexivity.
Qed.

Lemma code_units_quote_unit c : code_unit c -> Forall code_unit (quote_unit c).
Proof.
  intros Hc. unfold quote_unit, quote, backslash.
  repeat match goal with
    | |- context [if ?a =? ?b then _ else _] =>
        destruct (a =? b); [repeat constructor; unfold code_unit; lia|]
    end.
  destruct (c <? 32).
  - apply ascii_only_code_units, ascii_only_unicode_escape, Hc.
  - repeat constructor. exact Hc.
Qed.

(** What [JSON.stringify] writes for a string has no unpaired surrogate,
    whatever the string. *)
Lemma well_formed_quote_body s rest :
  well_formed (quote_body s ++ rest) = well_formed rest.
Proof.
  remember (List.length s) as n eqn:Hn.
  revert s Hn. induction (lt_wf n) as [n _ IH]. intros s ->.
  destruct s as [|c s']; [reflexivity|].
  cbn [quote_body].
  destruct (is_high c) eqn:Hh.
  - assert (c < 65536) by (apply surrogate_code_unit; rewrite Hh; reflexivity).
    destruct s' as [|d s''].
    + apply well_formed_ascii_app, ascii_only_unicode_escape. assumption.
    + destruct (is_low d) eqn:Hl.
      * cbn [app well_formed]. rewrite Hh, Hl. cbn [andb].
        apply (IH (List.length s'')); cbn; lia || reflexivity.
      * rewrite <- app_assoc, well_formed_ascii_app
          by (apply ascii_only_unicode_escape; assumption).
        apply (IH (List.length (d :: s''))); cbn; lia || reflexivity.
  - destruct (is_low c) eqn:Hl.
    + rewrite <- app_assoc, well_formed_ascii_app.
      * apply (IH (List.length s')); cbn; lia || reflexivity.
      * apply ascii_only_unicode_escape, surrogate_code_unit.
        rewrite Hl. apply orb_true_r.
    + rewrite <- app_assoc, well_formed_quote_unit by assumption.
      apply (IH (List.length s')); cbn; lia || reflexivity.
Qed.

Lemma code_units_quote_body s :
  Forall code_unit s -> Forall code_unit (quote_body s).
Proof.
  remember (List.length s) as n eqn:Hn.
  revert s Hn. induction (lt_wf n) as [n _ IH]. intros s -> Hs.
  destruct s as [|c s']; [constructor|].
  apply Forall_cons in Hs as [Hc Hs]. cbn [quote_body].
  assert (Hesc : Forall code_unit (unicode_escape c))
    by (apply ascii_only_code_units, ascii_only_unicode_escape, Hc).
  assert (Hrest : Forall code_unit (quote_body s'))
    by (apply (IH (List.length s')); cbn; lia || reflexivity || assumption).
  destruct (is_high c).
  - destruct s' as [|d s'']; [assumption|].
    destruct (is_low d); [|apply Forall_app; split; assumption].
    apply Forall_cons in Hs as [Hd Hs].
    repeat (constructor; [assumption|]).
    apply (IH (List.length s'')); cbn; lia || reflexivity || assumption.
  - destruct (is_low c); apply Forall_app; split; try assumption.
    apply code_units_quote_unit, Hc.
Qed.

Lemma code_units_stringify_string s :
  Forall code_unit s -> Forall code_unit (stringify_string s).
Proof.
  intros Hs. unfold stringify_string. constructor; [unfold code_unit, quote; lia|].
  apply Forall_app. split; [apply code_units_quote_body, Hs|].
  repeat constructor; unfold code_unit, quote; lia.
Qed.

Lemma well_formed_stringify_string s rest :
  well_formed (stringify_string s ++ rest) = well_formed rest.
Proof.
  unfold stringify_string. cbn [app well_formed].
  change (is_high quote) with false. change (is_low quote) with false.
  cbn [negb andb]. rewrite <- app_assoc, well_formed_quote_body. reflexivity.
Qed.

(** A frame is read back as its tag and its payload. *)
Lemma read_frame_frame tag payload :
  tag < 55296 -> Forall code_unit payload -> well_formed payload = true ->
  Reader.read_frame (frame tag payload) = Some (tag, payload).
Proof.
  intros Htag Hcu Hwf. unfold Reader.read_frame, frame.
  rewrite decode_encode.
  - rewrite N.eqb_refl, rev_unit, N.eqb_refl, rev_involutive. reflexivity.
  - constructor; [unfold code_unit; lia|].
    constructor; [unfold code_unit; lia|].
    apply Forall_app. split; [assumption|].
    repeat constructor; unfold code_unit, newline; lia.
  - cbn [well_formed]. destruct (not_surrogate tag) as [-> ->]; [assumption|].
    change (is_high 58) with false. change (is_low 58) with false.
    cbn [negb andb]. rewrite well_formed_app by assumption. reflexivity.
Qed.

Lemma read_text_frame s :
  Forall code_unit s ->
  Reader.read_frame (frame tag_text (stringify_string s))
  = Some (tag_text, stringify_string s).
Proof.
  intros Hs. apply read_frame_frame.
  - unfold tag_text. lia.
  - apply code_units_stringify_string, Hs.
  - rewrite <- (app_nil_r (stringify_string s)).
    apply well_formed_stringify_string.
Qed.

End WellFormed.

Section JsonValues.

Import JSON.

Lemma stringify_Obj fields :
  stringify (Obj fields)
  = lit "{" ++ join (lit ",") (List.map member_text fields) ++ lit "}".
Proof. reflexivity. Qed.

Lemma weight_Obj fields : weight (Obj fields) = S (members_weight fields).
Proof. reflexivity. Qed.

Lemma join_map_cons {A} sep (f : A -> jsstring) x y ys :
  join sep (List.map f (x :: y :: ys))
  = f x ++ sep ++ join sep (List.map f (y :: ys)).
Proof. reflexivity. Qed.

Lemma members_weight_cons kv fields :
  members_weight (kv :: fields) = (S (weight (snd kv)) + members_weight fields)%nat.
Proof. reflexivity. Qed.

Lemma digit_cons_digits u :
  match digits_of_uint u with
  | c :: r => is_digit c = true
  | [] => u = Decimal.Nil
  end.
Proof. destruct u; reflexivity. Qed.

Lemma number_toString_head n :
  exists c r, number_toString n = c :: r /\ is_digit c = true.
Proof.
  unfold number_toString. pose proof (digit_cons_digits (N.to_uint n)) as H.
  destruct (digits_of_uint (N.to_uint n)) as [|c r]; [|eauto].
  destruct n as [|p]; [discriminate|].
  exfalso. apply (DecimalPos.Unsigned.to_uint_nonnil p), H.
Qed.

Lemma parse_digits_digits u rest :
  starts_with_digit rest = false ->
  parse_digits (digits_of_uint u ++ rest) = (u, rest).
Proof.
  intros Hrest.
  induction u; cbn [digits_of_uint app parse_digits];
    try (change (is_digit _) with true; cbv iota; rewrite IHu; reflexivity).
  destruct rest as [|c r]; [reflexivity|].
  cbn in Hrest. cbn [parse_digits]. rewrite Hrest. reflexivity.
Qed.

Lemma is_digit_bounds c : is_digit c = true -> 48 <= c < 58.
Proof. unfold is_digit. cmp_lia; discriminate || lia. Qed.

(** Reading back what [stringify] wrote, with fuel for the weight of the
    value: a value, and the members of an object up to its closing brace. *)
Lemma parse_stringify_fuel fuel :
  (forall v rest,
      (weight v <= fuel)%nat -> starts_with_digit rest = false ->
      parse_value fuel (stringify v ++ rest) = Some (v, rest))
  /\ (forall kv fields rest,
      (members_weight (kv :: fields) <= fuel)%nat ->
      parse_members fuel
        (join (lit ",") (List.map member_text (kv :: fields)) ++ 125 :: rest)
      = Some (kv :: fields, rest)).
Proof.
  induction fuel as [|fuel [IHv IHm]].
  - split.
    + intros [] rest H; cbn in H; lia.
    + intros kv fields rest H. cbn in H. lia.
  - split.
    + intros v rest Hw Hrest. destruct v as [s|n|b|fields].
      * cbn [stringify parse_value]. unfold stringify_string.
        cbn [app]. rewrite N.eqb_refl, <- app_assoc. cbn [app].
        rewrite parse_quote_body. reflexivity.
      * cbn [stringify].
        destruct (number_toString_head n) as (c & r & Hn & Hc).
        pose proof (is_digit_bounds c Hc) as Hb.
        cbn [parse_value]. rewrite Hn at 1. cbn [app].
        destruct (N.eqb_spec c quote) as [->|_]; [unfold quote in Hb; lia|].
        rewrite Hc. unfold number_toString.
        rewrite parse_digits_digits by assumption.
        rewrite DecimalN.Unsigned.of_to. reflexivity.
      * destruct b; reflexivity.
      * rewrite stringify_Obj. rewrite weight_Obj in Hw.
        destruct fields as [|kv fields]; [reflexivity|].
        cbn [parse_value]. change (lit "{") with [123].
        change (lit "}") with [125]. cbn [app].
        change (123 =? quote) with false. change (is_digit 123) with false.
        change (123 =? 116) with false. change (123 =? 102) with false.
        change (123 =? 123) with true. cbv iota.
        rewrite <- app_assoc. cbn [app].
        rewrite IHm by lia.
        destruct fields; reflexivity.
    + intros [k v] fields rest Hw.
      rewrite members_weight_cons in Hw. cbn [snd] in Hw.
      assert (Hbody : forall tail,
        parse_members (S fuel)
          ((member_text (k, v) ++ tail))
        = match parse_value fuel (stringify v ++ tail) with
          | Some (v', c2 :: r2) =>
              if c2 =? 125 then Some ([(k, v')], r2)
              else if c2 =? 44
                   then prod_map (cons (k, v')) Datatypes.id
                          <$> parse_members fuel r2
                   else None
          | _ => None
          end).
      { intros tail. unfold member_text, stringify_string. cbn [fst snd].
        change (lit ":") with [58]. cbn [app parse_members].
        rewrite N.eqb_refl. rewrite <- !app_assoc. cbn [app].
        rewrite parse_quote_body. rewrite N.eqb_refl. reflexivity. }
      destruct fields as [|kv' fields].
      * cbn [List.map join]. rewrite Hbody, IHv by (reflexivity || lia).
        reflexivity.
      * rewrite join_map_cons. change (lit ",") with [44].
        rewrite <- !app_assoc. rewrite Hbody, IHv by (reflexivity || lia).
        cbn [app]. change (44 =? 125) with false. change (44 =? 44) with true.
        cbv iota. rewrite IHm by lia. reflexivity.
Qed.

Lemma member_weight_le fields :
  (forall kv, kv ∈ fields ->
     (weight (snd kv) <= List.length (stringify (snd kv)))%nat) ->
  (members_weight fields
   <= List.length (join (lit ",") (List.map member_text fields)))%nat.
Proof.
  induction fields as [|kv fields IH]; intros H; [cbn; lia|].
  assert (Hkv : (S (weight (snd kv)) <= List.length (member_text kv))%nat).
  { unfold member_text, stringify_string.
    rewrite !length_app. cbn [List.length].
    specialize (H kv ltac:(left)). lia. }
  assert (Hrest : (members_weight fields
    <= List.length (join (lit ",") (List.map member_text fields)))%nat).
  { apply IH. intros kv' Hin. apply H. right. exact Hin. }
  rewrite members_weight_cons.
  destruct fields as [|kv' fields].
  - cbn in *. lia.
  - rewrite join_map_cons, !length_app. lia.
Qed.

Lemma weight_le_bound bound :
  forall v, (weight v <= bound)%nat ->
            (weight v <= List.length (stringify v))%nat.
Proof.
  induction bound as [|bound IH]; intros v Hv.
  - destruct v; cbn in Hv; lia.
  - destruct v as [s|n|b|fields].
    + cbn. lia.
    + cbn [weight stringify].
      destruct (number_toString_head n) as (c & r & -> & _). cbn. lia.
    + destruct b; cbn; lia.
    + rewrite weight_Obj in *. rewrite stringify_Obj, !length_app.
      change (lit "{") with [123]. change (lit "}") with [125].
      cbn [List.length].
      enough (members_weight fields
              <= List.length (join (lit ",") (List.map member_text fields)))%nat
        by lia.
      apply member_weight_le. intros kv Hin. apply IH.
      enough (S (weight (snd kv)) <= members_weight fields)%nat by lia.
      clear -Hin. induction Hin as [kv fields|kv kv' fields _ IHin];
        rewrite members_weight_cons; lia.
Qed.

(** [JSON.parse] reads back what [JSON.stringify] wrote. *)
Lemma parse_stringify v : parse (stringify v) = Some v.
Proof.
  unfold parse.
  pose proof (weight_le_bound (weight v) v (le_n _)) as Hw.
  destruct (parse_stringify_fuel (S (List.length (stringify v)))) as [Hv _].
  specialize (Hv v [] ltac:(lia) eq_refl).
  rewrite app_nil_r in Hv. rewrite Hv. reflexivity.
Qed.

End JsonValues.

Section Base64Facts.

Lemma unbase64_b64_char v : v < 64 -> unbase64 (b64_char v) = Some v.
Proof.
  intros Hv. unfold unbase64, b64_char.
  destruct (N.ltb_spec v 26); [|destruct (N.ltb_spec v 52);
    [|destruct (N.ltb_spec v 62); [|destruct (N.eqb_spec v 62)]]];
    cmp_lia; f_equal; lia.
Qed.

Lemma b64_char_range v :
  let c := b64_char v in
  c = 43 \/ 47 <= c <= 57 \/ 65 <= c <= 90 \/ 97 <= c <= 122.
Proof. unfold b64_char. cbv zeta. cmp_lia; lia. Qed.

Lemma b64_char_not_pad v : (b64_char v =? pad) = false.
Proof.
  pose proof (b64_char_range v) as H. cbv zeta in H.
  apply N.eqb_neq. unfold pad. lia.
Qed.

Lemma low_byte_b64_char v : low_byte (b64_char v) = b64_char v.
Proof.
  pose proof (b64_char_range v) as H. cbv zeta in H. unfold low_byte. lia.
Qed.

Lemma sextets_b64_char v s : v < 64 -> sextets (b64_char v :: s) = v :: sextets s.
Proof.
  intros Hv. cbn [sextets].
  rewrite low_byte_b64_char, b64_char_not_pad, unbase64_b64_char by assumption.
  reflexivity.
Qed.

Lemma sextets_pad s : sextets (pad :: s) = [].
Proof. reflexivity. Qed.

(** Decoding undoes encoding. *)
Lemma Buffer_from_toString bs :
  bytes bs -> Buffer_from_base64 (Buffer_toString_base64 bs) = bs.
Proof.
  unfold Buffer_from_base64.
  remember (List.length bs) as n eqn:Hn.
  revert bs Hn. induction (lt_wf n) as [n _ IH]. intros bs -> Hbs.
  unfold bytes in *.
  destruct bs as [|a [|b [|c r]]]; [reflexivity|..];
    repeat match goal with
      | H : Forall _ (_ :: _) |- _ => apply Forall_cons in H as [? H]
      end;
    cbn [Buffer_toString_base64]; rewrite ?sextets_b64_char by lia;
    rewrite ?sextets_pad.
  - cbn [bytes_of_sextets]. f_equal. lia.
  - cbn [bytes_of_sextets]. f_equal; [|f_equal]; lia.
  - cbn [bytes_of_sextets].
    rewrite (IH (List.length r)) by (cbn; lia || reflexivity || assumption).
    f_equal; [|f_equal; [|f_equal]]; lia.
Qed.

Lemma unbase64_range c v : unbase64 c = Some v -> v < 64.
Proof.
  unfold unbase64. cmp_lia; intros [= <-]; lia.
Qed.

Lemma sextets_range s : Forall (fun v => v < 64) (sextets s).
Proof.
  induction s as [|c s IH]; [constructor|].
  cbn [sextets]. destruct (low_byte c =? pad); [constructor|].
  destruct (unbase64 (low_byte c)) as [v|] eqn:Hv; [|exact IH].
  constructor; [|exact IH]. apply (unbase64_range (low_byte c)), Hv.
Qed.

(** The decoder returns bytes, whatever its input. *)
Lemma Buffer_from_base64_bytes s : bytes (Buffer_from_base64 s).
Proof.
  unfold Buffer_from_base64. pose proof (sextets_range s) as H.
  remember (sextets s) as vs eqn:Hvs. clear Hvs s.
  remember (List.length vs) as n eqn:Hn.
  revert vs Hn H. induction (lt_wf n) as [n _ IH]. intros vs -> H.
  destruct vs as [|a [|b [|c [|d r]]]];
    repeat match goal with
      | H : Forall _ (_ :: _) |- _ => apply Forall_cons in H as [? H]
      end;
    cbn [bytes_of_sextets]; repeat (constructor; [cbn; lia|]);
    try constructor.
  apply (IH (List.length r)); cbn; lia || reflexivity || assumption.
Qed.

Lemma no_line_terminator_base64 bs :
  no_line_terminator (Buffer_toString_base64 bs) = true.
Proof.
  assert (Hc : forall v, negb (is_line_terminator (b64_char v)) = true).
  { intros v. pose proof (b64_char_range v) as H. cbv zeta in H.
    unfold is_line_terminator. cmp_lia; reflexivity. }
  unfold no_line_terminator.
  remember (List.length bs) as n eqn:Hn.
  revert bs Hn. induction (lt_wf n) as [n _ IH]. intros bs ->.
  destruct bs as [|a [|b [|c r]]]; cbn [Buffer_toString_base64 forallb];
    rewrite ?Hc; try reflexivity.
  apply (IH (List.length r)); cbn; lia || reflexivity.
Qed.

End Base64Facts.

Section DataUrl.

Lemma match_tail_not_semicolon c s : c <> 59 -> match_tail (c :: s) = None.
Proof.
  intros Hc. unfold match_tail.
  change (lit ";base64,") with (59 :: lit "base64,"). cbn [strip_prefix].
  destruct (N.eqb_spec 59 c); [congruence|reflexivity].
Qed.

Lemma match_lazy_type ct acc data :
  59 ∉ ct -> no_line_terminator ct = true -> no_line_terminator data = true ->
  match_lazy acc (ct ++ lit ";base64," ++ data) = Some (rev acc ++ ct, data).
Proof.
  revert acc. induction ct as [|c ct IH]; intros acc Hsemi Hct Hdata.
  - cbn [app]. change (lit ";base64," ++ data) with (59 :: (lit "base64," ++ data)).
    cbn [match_lazy].
    change (59 :: (lit "base64," ++ data)) with (lit ";base64," ++ data).
    unfold match_tail. rewrite strip_prefix_app, Hdata, app_nil_r. reflexivity.
  - apply not_elem_of_cons in Hsemi as [Hc Hsemi].
    cbn [no_line_terminator forallb] in Hct.
    apply andb_prop in Hct as [Hlt Hct]. apply negb_true_iff in Hlt.
    cbn [app match_lazy]. rewrite match_tail_not_semicolon by congruence.
    rewrite Hlt, IH by assumption.
    cbn [rev]. rewrite <- app_assoc. reflexivity.
Qed.

(** The pattern of [parseDataUrl] takes a data URL apart into its type and
    its data, when the type is not empty and has no semicolon. *)
Lemma exec_data_url_parts ct data :
  ct <> [] -> 59 ∉ ct ->
  no_line_terminator ct = true -> no_line_terminator data = true ->
  exec_data_url (lit "data:" ++ ct ++ lit ";base64," ++ data) = Some (ct, data).
Proof.
  intros Hne Hsemi Hct Hdata. unfold exec_data_url.
  rewrite strip_prefix_app. destruct ct as [|c ct]; [congruence|].
  apply not_elem_of_cons in Hsemi as [Hc Hsemi].
  cbn [no_line_terminator forallb] in Hct.
  apply andb_prop in Hct as [Hlt Hct]. apply negb_true_iff in Hlt.
  cbn [app]. rewrite Hlt, match_lazy_type by assumption. reflexivity.
Qed.

Lemma exec_data_url_startsWith url groups :
  exec_data_url url = Some groups -> startsWith url (lit "data:") = true.
Proof.
  unfold exec_data_url, startsWith.
  destruct (strip_prefix (lit "data:") url); [reflexivity|discriminate].
Qed.

End DataUrl.

Section Stream.

Import JSON.

Lemma data_stream_frames message :
  data_stream message
  = List.map (fun l => frame tag_text (stringify_string l))
      (resuffix (split newline message))
    ++ [frame tag_finish_step (stringify (finish_step message));
        frame tag_finish_message (stringify (finish_message message))].
Proof. unfold data_stream. rewrite text_frames_resuffix. reflexivity. Qed.

Lemma code_units_lines message :
  Forall code_unit message ->
  Forall (Forall code_unit) (resuffix (split newline message)).
Proof.
  intros H. apply Forall_concat. rewrite concat_resuffix_split. exact H.
Qed.

Lemma ascii_only_join sep parts :
  ascii_only sep -> Forall ascii_only parts -> ascii_only (join sep parts).
Proof.
  intros Hsep Hparts. induction Hparts as [|p ps Hp Hps IH]; [constructor|].
  destruct ps as [|q ps]; [exact Hp|].
  change (join sep (p :: q :: ps)) with (p ++ sep ++ join sep (q :: ps)).
  apply Forall_app. split; [exact Hp|]. apply Forall_app. split; assumption.
Qed.

Lemma ascii_only_quote_body s : ascii_only s -> ascii_only (quote_body s).
Proof.
  induction 1 as [|c s Hc _ IH]; [constructor|].
  cbn [quote_body]. destruct (not_surrogate c) as [-> ->]; [lia|].
  apply Forall_app. split; [|exact IH].
  unfold quote_unit, quote, backslash.
  repeat match goal with
    | |- context [if ?a =? ?b then _ else _] =>
        destruct (a =? b); [repeat constructor; lia|]
    end.
  destruct (c <? 32); [apply ascii_only_unicode_escape; lia|].
  repeat constructor. exact Hc.
Qed.

Lemma ascii_only_stringify_string s :
  ascii_only s -> ascii_only (stringify_string s).
Proof.
  intros Hs. unfold stringify_string.
  constructor; [unfold quote; lia|]. apply Forall_app.
  split; [apply ascii_only_quote_body, Hs|].
  repeat constructor; unfold quote; lia.
Qed.

Lemma ascii_only_Obj fields :
  Forall (fun kv => ascii_only (fst kv) /\ ascii_only (stringify (snd kv))) fields ->
  ascii_only (stringify (Obj fields)).
Proof.
  intros H. rewrite stringify_Obj.
  apply Forall_app. split; [apply ascii_only_forallb; reflexivity|].
  apply Forall_app. split; [|apply ascii_only_forallb; reflexivity].
  apply ascii_only_join; [apply ascii_only_forallb; reflexivity|].
  induction H as [|kv fields [Hk Hv] _ IH]; [constructor|].
  cbn [List.map]. constructor; [|exact IH].
  unfold member_text. apply Forall_app.
  split; [apply ascii_only_stringify_string, Hk|].
  apply Forall_app. split; [apply ascii_only_forallb; reflexivity|exact Hv].
Qed.

(** Solves [ascii_only] of a literal, a number or the text of a closed
    value; other goals are left. *)
Ltac ascii_leaf :=
  try lazymatch goal with
    | |- ascii_only (stringify (Num _)) => apply ascii_only_number
    | |- ascii_only (stringify (Str _)) =>
        apply ascii_only_forallb; vm_compute; reflexivity
    | |- ascii_only (stringify (Bool _)) =>
        apply ascii_only_forallb; vm_compute; reflexivity
    | |- ascii_only (lit _) =>
        apply ascii_only_forallb; vm_compute; reflexivity
    end.

Ltac ascii_members :=
  lazymatch goal with
  | |- Forall _ [] => apply Forall_nil; exact I
  | |- Forall _ (_ :: _) =>
      apply Forall_cons; split;
      [cbn [fst snd]; split; ascii_leaf | ascii_members]
  end.

Lemma ascii_only_usage message : ascii_only (stringify (usage message)).
Proof. unfold usage. apply ascii_only_Obj. ascii_members. Qed.

Lemma ascii_only_finish_step message : ascii_only (stringify (finish_step message)).
Proof.
  unfold finish_step. apply ascii_only_Obj. ascii_members.
  apply ascii_only_usage.
Qed.

Lemma ascii_only_finish_message message :
  ascii_only (stringify (finish_message message)).
Proof.
  unfold finish_message. apply ascii_only_Obj. ascii_members.
  apply ascii_only_usage.
Qed.
(** An object written in ASCII is read back from its frame. *)
Lemma read_object_frame tag v :
  tag < 55296 -> ascii_only (stringify v) ->
  Reader.read_object tag (frame tag (stringify v)) = Some v.
Proof.
  intros Htag Hv. unfold Reader.read_object.
  rewrite read_frame_frame.
  - rewrite N.eqb_refl. apply parse_stringify.
  - assumption.
  - apply ascii_only_code_units, Hv.
  - apply ascii_only_well_formed, Hv.
Qed.

Lemma frame_tag_frame tag v :
  tag < 55296 -> ascii_only (stringify v) ->
  Reader.frame_tag (frame tag (stringify v)) = Some tag.
Proof.
  intros Htag Hv. unfold Reader.frame_tag.
  rewrite read_frame_frame; [reflexivity|assumption|..].
  - apply ascii_only_code_units, Hv.
  - apply ascii_only_well_formed, Hv.
Qed.

(** The text frames of a stream are read back as the strings they carry. *)
Lemma text_parts_frames ls rest parts :
  Forall (Forall code_unit) ls ->
  Reader.text_parts rest = Some parts ->
  Reader.text_parts
    (List.map (fun l => frame tag_text (stringify_string l)) ls ++ rest)
  = Some (ls ++ parts).
Proof.
  intros Hls Hrest. induction Hls as [|l ls Hl _ IH]; [exact Hrest|].
  cbn [List.map app Reader.text_parts].
  rewrite read_text_frame, N.eqb_refl, parse_stringify_string, IH
    by assumption.
  reflexivity.
Qed.

Lemma frame_tags_text ls :
  Forall (Forall code_unit) ls ->
  List.map Reader.frame_tag
    (List.map (fun l => frame tag_text (stringify_string l)) ls)
  = replicate (List.length ls) (Some tag_text).
Proof.
  induction 1 as [|l ls Hl _ IH]; [reflexivity|].
  cbn [List.map List.length replicate]. rewrite IH. f_equal.
  unfold Reader.frame_tag. rewrite read_text_frame by assumption. reflexivity.
Qed.

(** The two frames that end a stream carry the finish objects. *)
Lemma finish_frames message :
  exists texts e d,
    data_stream message = texts ++ [e; d]
    /\ Reader.read_object tag_finish_step e = Some (finish_step message)
    /\ Reader.read_object tag_finish_message d = Some (finish_message message).
Proof.
  eexists _, _, _. split; [apply data_stream_frames|]. split.
  - apply read_object_frame; [unfold tag_finish_step; lia|].
    apply ascii_only_finish_step.
  - apply read_object_frame; [unfold tag_finish_message; lia|].
    apply ascii_only_finish_message.
Qed.

Lemma usage_completionTokens message :
  Reader.usage_field (lit "completionTokens") (finish_step message)
  = Some (Num (Js.length message))
  /\ Reader.usage_field (lit "completionTokens") (finish_message message)
     = Some (Num (Js.length message)).
Proof. split; reflexivity. Qed.

Lemma usage_promptTokens message :
  Reader.usage_field (lit "promptTokens") (finish_step message) = Some (Num 10)
  /\ Reader.usage_field (lit "promptTokens") (finish_message message)
     = Some (Num 10).
Proof. split; reflexivity. Qed.

Lemma POST_body w req :
  body (fst (POST w req)) = data_stream (fst (POST_message w req)).
Proof. unfold POST. destruct (POST_message w req). reflexivity. Qed.

End Stream.

(** * The stream *)

(** C1.  For every message (a string of UTF-16 code units) the stream holds
    one [0:] frame per line of the message, in order: the frame of each line
    but the last carries the line with its line break again, every payload
    is the JSON text of what it carries.  Reading the [0:] payloads back and
    concatenating them gives the message.  After the text frames come
    exactly one [e:] frame and then exactly one [d:] frame, and nothing
    else. *)
Theorem stream_framing_round_trip (message : jsstring) :
  Forall code_unit message ->
  let lines := split newline message in
  data_stream message
  = List.map (fun l => frame tag_text (JSON.stringify_string l)) (resuffix lines)
    ++ [frame tag_finish_step (JSON.stringify (finish_step message));
        frame tag_finish_message (JSON.stringify (finish_message message))]
  /\ List.length (resuffix lines) = List.length lines
  /\ Reader.text_parts (data_stream message) = Some (resuffix lines)
  /\ Reader.received_text (data_stream message) = Some message
  /\ List.map Reader.frame_tag (data_stream message)
     = replicate (List.length lines) (Some tag_text)
       ++ [Some tag_finish_step; Some tag_finish_message].
Proof.
  intros Hm lines.
  pose proof (code_units_lines message Hm) as Hlines. fold lines in Hlines.
  assert (Hparts : Reader.text_parts (data_stream message) = Some (resuffix lines)).
  { rewrite data_stream_frames. fold lines.
    rewrite (text_parts_frames _ _ []), ?app_nil_r; [reflexivity|assumption|].
    cbn [Reader.text_parts].
    pose proof (read_object_frame tag_finish_step (finish_step message)) as He.
    pose proof (read_object_frame tag_finish_message (finish_message message)) as Hd.
    unfold Reader.read_object in He, Hd.
    destruct (Reader.read_frame (frame tag_finish_step _)) as [[t p]|];
      [|discriminate He; [unfold tag_finish_step; lia|apply ascii_only_finish_step]].
    destruct (N.eqb_spec t tag_finish_step) as [->|];
      [|discriminate He; [unfold tag_finish_step; lia|apply ascii_only_finish_step]].
    change (tag_finish_step =? tag_text) with false. cbv iota.
    destruct (Reader.read_frame (frame tag_finish_message _)) as [[t' p']|];
      [|discriminate Hd; [unfold tag_finish_message; lia|apply ascii_only_finish_message]].
    destruct (N.eqb_spec t' tag_finish_message) as [->|];
      [|discriminate Hd; [unfold tag_finish_message; lia|apply ascii_only_finish_message]].
    reflexivity. }
  split; [apply data_stream_frames|].
  split; [apply resuffix_length|].
  split; [exact Hparts|].
  split.
  - unfold Reader.received_text. rewrite Hparts. cbn [fmap option_fmap option_map].
    unfold lines. rewrite concat_resuffix_split. reflexivity.
  - rewrite data_stream_frames. fold lines.
    rewrite List.map_app, frame_tags_text, resuffix_length by assumption.
    cbn [List.map].
    rewrite (frame_tag_frame tag_finish_step (finish_step message))
      by (apply ascii_only_finish_step || (unfold tag_finish_step; lia)).
    rewrite (frame_tag_frame tag_finish_message (finish_message message))
      by (apply ascii_only_finish_message || (unfold tag_finish_message; lia)).
    reflexivity.
Qed.

(** A three-line message, its frames and what is read back from them. *)
Lemma stream_framing_round_trip_witness :
  let message := lit "one" ++ [newline] ++ lit "two" ++ [newline] ++ lit "three" in
  Forall code_unit message
  /\ Reader.received_text (data_stream message) = Some message
  /\ List.map Reader.frame_tag (data_stream message)
     = [Some tag_text; Some tag_text; Some tag_text;
        Some tag_finish_step; Some tag_finish_message].
Proof.
  intros message.
  assert (Hm : Forall code_unit message)
    by (apply ascii_only_code_units, ascii_only_forallb; reflexivity).
  split; [exact Hm|].
  pose proof (stream_framing_round_trip message Hm) as (_ & _ & _ & Hr & Ht).
  split; [exact Hr|exact Ht].
Defined.

(** C2.  The [e:] frame and the [d:] frame are the last two chunks of the
    response, and in both the [completionTokens] field of [usage] is the
    length of the response message: [message.length], the number of UTF-16
    code units of the string. *)
Theorem completion_tokens_is_message_length (w : world) (req : request_body) :
  exists texts e d,
    body (fst (POST w req)) = texts ++ [e; d]
    /\ Reader.read_object tag_finish_step e
         ≫= Reader.usage_field (lit "completionTokens")
       = Some (JSON.Num (Js.length (fst (POST_message w req))))
    /\ Reader.read_object tag_finish_message d
         ≫= Reader.usage_field (lit "completionTokens")
       = Some (JSON.Num (Js.length (fst (POST_message w req)))).
Proof.
  destruct (finish_frames (fst (POST_message w req))) as (texts & e & d & Hs & He & Hd).
  exists texts, e, d. rewrite POST_body, He, Hd.
  split; [exact Hs|]. apply usage_completionTokens.
Qed.

(** C10.  In the [e:] frame and in the [d:] frame of every response the
    [promptTokens] field of [usage] is 10, whatever the request and the
    outcome of the detection. *)
Theorem prompt_tokens_is_ten (w : world) (req : request_body) :
  exists texts e d,
    body (fst (POST w req)) = texts ++ [e; d]
    /\ Reader.read_object tag_finish_step e
         ≫= Reader.usage_field (lit "promptTokens")
       = Some (JSON.Num 10)
    /\ Reader.read_object tag_finish_message d
         ≫= Reader.usage_field (lit "promptTokens")
       = Some (JSON.Num 10).
Proof.
  destruct (finish_frames (fst (POST_message w req))) as (texts & e & d & Hs & He & Hd).
  exists texts, e, d. rewrite POST_body, He, Hd.
  split; [exact Hs|]. apply usage_promptTokens.
Qed.

(** * The pipeline *)

Section Pipeline.

Lemma includes_infix s a p b : s = a ++ p ++ b -> includes s p = true.
Proof. intros ->. apply includes_app. Qed.

Lemma detect_resolve_throw w chatId imageUrl e log :
  resolve_image w imageUrl = (Throw e, log) ->
  detect w chatId imageUrl = (Throw e, log).
Proof. intros H. unfold detect. rewrite H. reflexivity. Qed.

Lemma try_detect_throw w chatId imageUrl e log :
  detect w chatId imageUrl = (Throw e, log) ->
  try_detect w chatId imageUrl = (error_message w e, log ++ [ConsoleError e]).
Proof. intros H. unfold try_detect. rewrite H. reflexivity. Qed.

Lemma POST_message_image w req imageUrl rest :
  data req ≫= images = Some (imageUrl :: rest) ->
  POST_message w req
  = try_detect w (getChatId (data req) (messages req)) imageUrl.
Proof. intros H. unfold POST_message. rewrite H. reflexivity. Qed.

(** The report of an error holds its text and the address of the
    detection service. *)
Lemma error_message_embeds w e :
  includes (error_message w e) (error_text e) = true
  /\ includes (error_message w e) (lit "http://" ++ render (YOLO_SERVICE w)) = true.
Proof.
  split.
  - eapply (includes_infix _
      ([10060] ++ lit " **Object Detection Error**" ++ [newline] ++ [newline]
       ++ lit "Sorry, I encountered an error while processing your image: ")).
    unfold error_message. rewrite <- !app_assoc. reflexivity.
  - eapply (includes_infix _
      ([10060] ++ lit " **Object Detection Error**" ++ [newline] ++ [newline]
       ++ lit "Sorry, I encountered an error while processing your image: "
       ++ error_text e ++ [newline] ++ [newline]
       ++ lit "Please make sure the object detection service is reachable at ")
      _ (lit ".")).
    unfold error_message. rewrite <- !app_assoc. reflexivity.
Qed.

(** The success message holds the count, the labels and the identifier of
    the prediction. *)
Lemma success_message_includes p :
  includes (success_message p)
    (lit "Detection Count:** " ++ number_toString (detection_count p)) = true
  /\ includes (success_message p) (join (lit ", ") (labels p)) = true
  /\ includes (success_message p) (prediction_uid p) = true.
Proof.
  split; [|split].
  - eapply (includes_infix _
      ([55357; 56589] ++ lit " **Object Detection Results**" ++ [newline]
       ++ [newline] ++ lit "**")).
    unfold success_message. rewrite <- !app_assoc. reflexivity.
  - eapply (includes_infix _
      ([55357; 56589] ++ lit " **Object Detection Results**" ++ [newline]
       ++ [newline] ++ lit "**Detection Count:** "
       ++ number_toString (detection_count p) ++ [newline]
       ++ lit "**Detected Objects:** ")).
    unfold success_message. rewrite <- !app_assoc. reflexivity.
  - eapply (includes_infix _
      ([55357; 56589] ++ lit " **Object Detection Results**" ++ [newline]
       ++ [newline] ++ lit "**Detection Count:** "
       ++ number_toString (detection_count p) ++ [newline]
       ++ lit "**Detected Objects:** " ++ join (lit ", ") (labels p)
       ++ [newline] ++ lit "**Prediction ID:** ")).
    unfold success_message. rewrite <- !app_assoc. reflexivity.
Qed.

End Pipeline.

(** C3.  A request whose first image reference starts with [data:] and
    does not match the pattern of [parseDataUrl] gets the error report of
    the malformed inline image; a request whose first reference starts with
    none of [data:], [http://] and [https://] gets the error report of the
    unsupported image source.  In both cases the handler returns its
    response, the stream of that report, and calls no service: the failure
    is logged and nothing else happens. *)
Theorem bad_references_are_reported
    (w : world) (req : request_body) (imageUrl : jsstring) (rest : list jsstring) :
  data req ≫= images = Some (imageUrl :: rest) ->
  (startsWith imageUrl (lit "data:") = true ->
   exec_data_url imageUrl = None ->
   POST w req
   = ({| body := data_stream (error_message w MalformedInlineImage);
         headers := stream_headers |},
      [ConsoleError MalformedInlineImage]))
  /\ (startsWith imageUrl (lit "data:") = false ->
      startsWith imageUrl (lit "http://") = false ->
      startsWith imageUrl (lit "https://") = false ->
      POST w req
      = ({| body := data_stream (error_message w UnsupportedImageSource);
            headers := stream_headers |},
         [ConsoleError UnsupportedImageSource])).
Proof.
  intros Himg. split.
  - intros Hdata Hexec. unfold POST.
    rewrite (POST_message_image _ _ _ _ Himg).
    rewrite (try_detect_throw _ _ _ MalformedInlineImage []); [reflexivity|].
    apply detect_resolve_throw. unfold resolve_image, parseDataUrl.
    rewrite Hdata, Hexec. reflexivity.
  - intros Hdata Hhttp Hhttps. unfold POST.
    rewrite (POST_message_image _ _ _ _ Himg).
    rewrite (try_detect_throw _ _ _ UnsupportedImageSource []); [reflexivity|].
    apply detect_resolve_throw. unfold resolve_image.
    rewrite Hdata, Hhttp, Hhttps. reflexivity.
Qed.

(** A data URL without the [;base64,] part and a reference of another
    scheme. *)
Lemma bad_references_are_reported_witness :
  POST sample_world (request_with [lit "data:image/png,AAAA"])
  = ({| body := data_stream (error_message sample_world MalformedInlineImage);
        headers := stream_headers |},
     [ConsoleError MalformedInlineImage])
  /\ POST sample_world (request_with [lit "ftp://host/cat.png"; lit "data:x"])
     = ({| body := data_stream (error_message sample_world UnsupportedImageSource);
           headers := stream_headers |},
        [ConsoleError UnsupportedImageSource]).
Proof.
  split.
  - apply (bad_references_are_reported sample_world
             (request_with [lit "data:image/png,AAAA"])
             (lit "data:image/png,AAAA") []); reflexivity.
  - apply (bad_references_are_reported sample_world
             (request_with [lit "ftp://host/cat.png"; lit "data:x"])
             (lit "ftp://host/cat.png") [lit "data:x"]); reflexivity.
Defined.

(** C4.  [guessExtFromContentType] returns what the ordered table gives:
    the extension of the first fragment among png, webp, jpeg, gif that
    occurs in the content type, and jpg when the content type is missing or
    no fragment occurs in it. *)
Theorem guessExt_is_first_match (ct : option jsstring) :
  guessExtFromContentType ct = extension_by_table ct
  /\ (forall s, ct = Some s -> first_match extension_table s = None ->
                guessExtFromContentType ct = lit "jpg")
  /\ guessExtFromContentType None = lit "jpg"
  /\ guessExtFromContentType (Some (lit "image/png")) = lit "png"
  /\ guessExtFromContentType (Some (lit "image/jpeg")) = lit "jpg".
Proof.
  assert (H : guessExtFromContentType ct = extension_by_table ct).
  { destruct ct as [[|c s]|]; try reflexivity.
    unfold guessExtFromContentType, extension_by_table, extension_table.
    cbn [truthy negb default first_match]. change (id (c :: s)) with (c :: s).
    repeat match goal with
      | |- context [includes ?a ?b] => destruct (includes a b); try reflexivity
      end. }
  split; [exact H|]. split; [|repeat split].
  intros s -> Hs. rewrite H. unfold extension_by_table. rewrite Hs. reflexivity.
Qed.

(** C7.  The success message of the prediction with count 3, labels cat,
    dog, car and identifier abc123 holds the three texts. *)
Theorem success_message_of_sample :
  includes (success_message sample_prediction) (lit "Detection Count:** 3") = true
  /\ includes (success_message sample_prediction) (lit "cat, dog, car") = true
  /\ includes (success_message sample_prediction) (lit "abc123") = true
  /\ fst (POST_message sample_world (request_with [lit "https://host/cat.png"]))
     = success_message sample_prediction.
Proof.
  destruct (success_message_includes sample_prediction) as (Hc & Hl & Hu).
  split; [exact Hc|]. split; [exact Hl|]. split; [exact Hu|].
  vm_compute. reflexivity.
Qed.

(** C9.  Of the image references of a request only the first counts: the
    response and the calls made for the request are the same whatever
    follows the first reference. *)
Theorem only_first_image_is_used
    (w : world) (msgs : option (list chat_message)) (model cid cid' : option jsstring)
    (imageUrl : jsstring) (rest rest' : list jsstring) :
  POST w {| messages := msgs; selectedModel := model;
            data := Some {| images := Some (imageUrl :: rest);
                            chatId := cid; chat_id := cid' |} |}
  = POST w {| messages := msgs; selectedModel := model;
              data := Some {| images := Some (imageUrl :: rest');
                              chatId := cid; chat_id := cid' |} |}
  /\ POST_message w {| messages := msgs; selectedModel := model;
                       data := Some {| images := Some (imageUrl :: rest);
                                       chatId := cid; chat_id := cid' |} |}
     = try_detect w
         (getChatId (Some {| images := Some [imageUrl];
                             chatId := cid; chat_id := cid' |}) msgs)
         imageUrl.
Proof.
  split.
  - unfold POST, POST_message. cbn [data images mbind option_bind].
    reflexivity.
  - unfold POST_message, getChatId.
    cbn [data images messages chatId chat_id mbind option_bind]. reflexivity.
Qed.

(** C5.  When the detection of a request throws, at whatever step, the
    message of the response is the error report of what was thrown: the
    fixed text around the message of the error (or [Unknown error] for a
    thrown value that is no [Error]) and the address of the detection
    service.  The report is logged once, after the calls made before the
    failure, and the response is the stream of that one message. *)
Theorem failures_become_one_error_report
    (w : world) (req : request_body) (imageUrl : jsstring) (rest : list jsstring)
    (e : thrown) (log : list event) :
  data req ≫= images = Some (imageUrl :: rest) ->
  detect w (getChatId (data req) (messages req)) imageUrl = (Throw e, log) ->
  POST w req
  = ({| body := data_stream (error_message w e); headers := stream_headers |},
     log ++ [ConsoleError e])
  /\ error_message w e
     = [10060] ++ lit " **Object Detection Error**" ++ [newline; newline]
       ++ lit "Sorry, I encountered an error while processing your image: "
       ++ match e with JsError message => message | NonError => lit "Unknown error" end
       ++ [newline; newline]
       ++ lit "Please make sure the object detection service is reachable at http://"
       ++ render (YOLO_SERVICE w) ++ lit "."
  /\ includes (error_message w e) (error_text e) = true
  /\ includes (error_message w e) (lit "http://" ++ render (YOLO_SERVICE w)) = true.
Proof.
  intros Himg Hdetect. split; [|split; [|apply error_message_embeds]].
  - unfold POST. rewrite (POST_message_image _ _ _ _ Himg).
    rewrite (try_detect_throw _ _ _ _ _ Hdetect). reflexivity.
  - unfold error_message, error_text. reflexivity.
Qed.

(** The storage service refuses the upload of a fetched image: the report
    holds its message, and no prediction was requested. *)
Lemma failures_become_one_error_report_witness :
  let e := JsError (lit "Access Denied") in
  exists cmd,
    POST storage_down (request_with [lit "https://host/cat.png"])
    = ({| body := data_stream (error_message storage_down e);
          headers := stream_headers |},
       [ImageFetched (lit "https://host/cat.png"); ObjectPut cmd; ConsoleError e])
    /\ includes (error_message storage_down e) (lit "Access Denied") = true.
Proof.
  intros e. eexists.
  pose proof (failures_become_one_error_report storage_down
                (request_with [lit "https://host/cat.png"])
                (lit "https://host/cat.png") [] e _ eq_refl eq_refl)
    as (HPOST & _ & Hincl & _).
  split; [exact HPOST|exact Hincl].
Defined.

Section Session.

Import CookieRoute.

(** The first part of a split: the text before the first separator. *)
Lemma split_head sep s :
  exists l ls rest,
    split sep s = l :: ls /\ s = l ++ rest /\ (sep ∉ l)
    /\ (rest = [] \/ head rest = Some sep).
Proof.
  induction s as [|c s (l & ls & rest & Hs & Heq & Hn & Hrest)].
  - exists [], [], []. repeat split; auto. apply not_elem_of_nil.
  - cbn [split]. rewrite Hs. destruct (N.eqb_spec c sep) as [->|Hc].
    + exists [], (l :: ls), (sep :: s).
      repeat split; auto. apply not_elem_of_nil.
    + exists (c :: l), ls, rest. split; [reflexivity|].
      split; [cbn [app]; congruence|].
      split; [|exact Hrest]. apply not_elem_of_cons. split; [congruence|exact Hn].
Qed.

Lemma split_first sep l r :
  sep ∉ l -> split sep (l ++ sep :: r) !! 0%nat = Some l.
Proof.
  induction l as [|c l IH]; intros Hn; cbn [app split].
  - rewrite N.eqb_refl. reflexivity.
  - apply not_elem_of_cons in Hn as [Hc Hn].
    destruct (N.eqb_spec c sep) as [->|_]; [congruence|].
    specialize (IH Hn).
    destruct (split sep (l ++ sep :: r)) as [|l0 ls]; [discriminate|].
    injection IH as ->. reflexivity.
Qed.

Lemma resolve_existing sw c t :
  cookies sw !! cookie_name = Some (c :: t) ->
  resolveChatFolderId sw
  = {| folder_chatId := c :: t; setCookieHeader := None |}.
Proof. intros H. unfold resolveChatFolderId. rewrite H. reflexivity. Qed.

(** The session id of a request is not empty. *)
Lemma folder_not_empty sw : folder_chatId (resolveChatFolderId sw) <> [].
Proof.
  unfold resolveChatFolderId.
  destruct (cookies sw !! cookie_name) as [[|c t]|];
    cbn [truthy folder_chatId default]; try discriminate;
    destruct (default [] (split 84 (toISOString sw) !! 0%nat)); discriminate.
Qed.

End Session.

(** C6.  A request that comes with the cookie gets the value of the
    cookie as its session id and no [Set-Cookie] header, whatever the
    clock and the random value: so every later request that holds the id of
    this request in its cookie gets the same id again, and none is made.
    A session id made for a request without the cookie is the text of the
    clock reading before its first [T], a hyphen and the text of the random
    UUID before its first hyphen: the date and the first group of the UUID.
    With it the response sets the cookie to this id for ninety days.  A
    session id is never empty. *)
Theorem session_id_is_stable
    (jar : gmap (list N) (list N)) (iso uuid : jsstring) :
  let first :=
    CookieRoute.resolveChatFolderId
      {| CookieRoute.cookies := jar; CookieRoute.toISOString := iso;
         CookieRoute.randomUUID := uuid |} in
  CookieRoute.folder_chatId first <> []
  /\ (forall id, jar !! CookieRoute.cookie_name = Some id -> id <> [] ->
        first = {| CookieRoute.folder_chatId := id;
                   CookieRoute.setCookieHeader := None |})
  /\ (forall jar' iso' uuid',
        jar' !! CookieRoute.cookie_name = Some (CookieRoute.folder_chatId first) ->
        CookieRoute.resolveChatFolderId
          {| CookieRoute.cookies := jar'; CookieRoute.toISOString := iso';
             CookieRoute.randomUUID := uuid' |}
        = {| CookieRoute.folder_chatId := CookieRoute.folder_chatId first;
             CookieRoute.setCookieHeader := None |})
  /\ (truthy (jar !! CookieRoute.cookie_name) = false ->
      (exists today rest shortRand rest',
          iso = today ++ rest /\ (84 ∉ today)
          /\ (rest = [] \/ head rest = Some 84)
          /\ uuid = shortRand ++ rest' /\ (45 ∉ shortRand)
          /\ (rest' = [] \/ head rest' = Some 45)
          /\ CookieRoute.folder_chatId first = today ++ lit "-" ++ shortRand
          /\ CookieRoute.setCookieHeader first
             = Some (lit "chatFolderId=" ++ today ++ lit "-" ++ shortRand
                     ++ lit "; Path=/; Max-Age=7776000; SameSite=Lax"))
      /\ (forall date time block tail,
             iso = date ++ 84 :: time -> 84 ∉ date ->
             uuid = block ++ 45 :: tail -> 45 ∉ block ->
             CookieRoute.folder_chatId first = date ++ lit "-" ++ block)).
Proof.
  intros first.
  assert (Hne : CookieRoute.folder_chatId first <> []) by apply folder_not_empty.
  split; [exact Hne|]. split; [|split].
  - intros [|c t] Hjar Hid; [congruence|].
    apply (resolve_existing _ c t), Hjar.
  - intros jar' iso' uuid' Hjar'.
    destruct (CookieRoute.folder_chatId first) as [|c t]; [congruence|].
    apply (resolve_existing _ c t), Hjar'.
  - intros Hnone. subst first. unfold CookieRoute.resolveChatFolderId.
    cbn [CookieRoute.cookies CookieRoute.toISOString CookieRoute.randomUUID].
    rewrite Hnone. cbn [CookieRoute.folder_chatId CookieRoute.setCookieHeader].
    split.
    + destruct (split_head 84 iso) as (today & ? & rest & -> & Hiso & Hn & Hrest).
      destruct (split_head 45 uuid) as (shortRand & ? & rest' & -> & Huuid & Hn' & Hrest').
      exists today, rest, shortRand, rest'. cbn [lookup list_lookup default].
      repeat (split; [reflexivity || assumption|]).
      rewrite <- !app_assoc. reflexivity.
    + intros date time block tail -> Hdate -> Hblock.
      rewrite !split_first by assumption. reflexivity.
Qed.

(** A first request without the cookie, and a later one that holds the id
    of the first in its cookie. *)
Lemma session_id_is_stable_witness :
  let id := lit "2025-09-04-3f2b8c1a" in
  CookieRoute.resolveChatFolderId
    {| CookieRoute.cookies := ∅;
       CookieRoute.toISOString := lit "2025-09-04T10:00:00.000Z";
       CookieRoute.randomUUID := lit "3f2b8c1a-0000-4000-8000-000000000000" |}
  = {| CookieRoute.folder_chatId := id;
       CookieRoute.setCookieHeader :=
         Some (lit "chatFolderId=2025-09-04-3f2b8c1a; Path=/; Max-Age=7776000; SameSite=Lax") |}
  /\ CookieRoute.resolveChatFolderId
       {| CookieRoute.cookies := {[ CookieRoute.cookie_name := id ]};
          CookieRoute.toISOString := lit "2025-12-01T12:00:00.000Z";
          CookieRoute.randomUUID := lit "99999999-0000-4000-8000-000000000000" |}
     = {| CookieRoute.folder_chatId := id; CookieRoute.setCookieHeader := None |}.
Proof.
  intros id. split; [reflexivity|].
  pose proof (session_id_is_stable ∅ (lit "2025-09-04T10:00:00.000Z")
                (lit "3f2b8c1a-0000-4000-8000-000000000000"))
    as (_ & _ & Hlater & _).
  apply (Hlater {[ CookieRoute.cookie_name := id ]}).
  apply lookup_singleton_eq.
Defined.

(** C8, as worded: false.  The reference [data:image/png;base64,QQ]
    matches the pattern, with the data [QQ]; its one byte is encoded again
    as [QQ==]. *)
Lemma reencoding_can_differ :
  ~ (forall url ct data,
       exec_data_url url = Some (ct, data) ->
       Buffer_toString_base64 (Buffer_from_base64 data) = data).
Proof.
  intros H.
  specialize (H (lit "data:image/png;base64,QQ") (lit "image/png") (lit "QQ") eq_refl).
  discriminate H.
Qed.

(** C8, amended.  For a reference that matches the pattern, decoding its
    data and encoding the bytes again gives the data back exactly when the
    data is the base64 text [Buffer] writes for some bytes: standard
    alphabet, padded, nothing else. *)
Theorem canonical_data_round_trips (url ct data : jsstring) :
  exec_data_url url = Some (ct, data) ->
  exists image,
    parseDataUrl url = Ok image
    /\ contentType image = Some ct
    /\ bytes (buffer image)
    /\ (Buffer_toString_base64 (buffer image) = data
        <-> exists bs, bytes bs /\ data = Buffer_toString_base64 bs)
    /\ (forall bs, bytes bs -> data = Buffer_toString_base64 bs ->
                   buffer image = bs).
Proof.
  intros Hexec. unfold parseDataUrl. rewrite Hexec. eexists. split; [reflexivity|].
  cbn [contentType buffer]. split; [reflexivity|].
  split; [apply Buffer_from_base64_bytes|]. split; [split|].
  - intros H. exists (Buffer_from_base64 data).
    split; [apply Buffer_from_base64_bytes|]. symmetry. exact H.
  - intros (bs & Hbs & ->). rewrite Buffer_from_toString by assumption. reflexivity.
  - intros bs Hbs ->. apply Buffer_from_toString, Hbs.
Qed.

(** The three bytes of [ABC] as an inline PNG reference. *)
Lemma canonical_data_round_trips_witness :
  exists image,
    parseDataUrl (lit "data:image/png;base64,QUJD") = Ok image
    /\ buffer image = [65; 66; 67]
    /\ Buffer_toString_base64 (buffer image) = lit "QUJD".
Proof.
  destruct (canonical_data_round_trips
              (lit "data:image/png;base64,QUJD") (lit "image/png") (lit "QUJD")
              eq_refl) as (image & Hparse & _ & _ & Hiff & Hbs).
  exists image. split; [exact Hparse|].
  assert (Hb : buffer image = [65; 66; 67]).
  { apply Hbs; [|reflexivity]. repeat constructor. }
  split; [exact Hb|]. rewrite Hb. reflexivity.
Defined.

(** * More about the pipeline *)

Section Steps.

Lemma detect_steps w chatId imageUrl :
  detect w chatId imageUrl
  = bind (resolve_image w imageUrl) (upload_and_predict w chatId).
Proof. reflexivity. Qed.

Lemma bind_Ok {A B} (m : M A) (k : A -> M B) a log :
  m = (Ok a, log) -> bind m k = (fst (k a), log ++ snd (k a)).
Proof. intros ->. unfold bind. destruct (k a). reflexivity. Qed.

Lemma bind_Throw {A B} (m : M A) (k : A -> M B) e log :
  m = (Throw e, log) -> bind m k = (Throw e, log).
Proof. intros ->. reflexivity. Qed.

Lemma read_prediction_log resp : snd (read_prediction resp) = [].
Proof.
  unfold read_prediction. destruct (prediction_ok resp); cbn;
    [destruct (prediction_json resp)|]; reflexivity.
Qed.

Lemma read_prediction_result resp :
  match fst (read_prediction resp) with
  | Ok message => exists p, prediction_json resp = Ok p
                            /\ message = success_message p
  | Throw _ => True
  end.
Proof.
  unfold read_prediction. destruct (prediction_ok resp); cbn; [|exact I].
  destruct (prediction_json resp) as [p|]; cbn; eauto.
Qed.

Lemma request_prediction_log w chatId key :
  snd (request_prediction w chatId key) = []
  \/ exists img cid,
       encodeURIComponent key = Ok img /\ encodeURIComponent chatId = Ok cid
       /\ snd (request_prediction w chatId key)
          = [PredictionRequested (prediction_url w img cid)].
Proof.
  unfold request_prediction.
  destruct (encodeURIComponent key) as [img|]; [|left; reflexivity].
  destruct (encodeURIComponent chatId) as [cid|]; [|left; reflexivity].
  right. exists img, cid. split; [reflexivity|]. split; [reflexivity|].
  cbn [lift bind call]. destruct (fetch_post w _) as [resp|]; [|reflexivity].
  pose proof (read_prediction_log resp) as Hlog.
  destruct (read_prediction resp) as [r log]. cbn in *. subst log. reflexivity.
Qed.

Lemma request_prediction_result w chatId key :
  match fst (request_prediction w chatId key) with
  | Ok message => exists p, message = success_message p
  | Throw _ => True
  end.
Proof.
  unfold request_prediction.
  destruct (encodeURIComponent key) as [img|]; [|exact I].
  destruct (encodeURIComponent chatId) as [cid|]; [|exact I].
  cbn [lift bind call]. destruct (fetch_post w _) as [resp|]; [|exact I].
  pose proof (read_prediction_result resp) as Hres.
  destruct (read_prediction resp) as [[message|] log]; cbn in *; [|exact I].
  destruct Hres as (p & _ & ->). eauto.
Qed.

Lemma upload_and_predict_log w chatId image :
  exists rest,
    snd (upload_and_predict w chatId image)
    = ObjectPut (upload_of w chatId image) :: rest
    /\ (rest = []
        \/ exists img cid,
             encodeURIComponent (Key (upload_of w chatId image)) = Ok img
             /\ encodeURIComponent chatId = Ok cid
             /\ rest = [PredictionRequested (prediction_url w img cid)]).
Proof.
  unfold upload_and_predict. cbn [call bind].
  destruct (s3_send w _) as [[]|]; [|exists []; split; [reflexivity|left; reflexivity]].
  pose proof (request_prediction_log w chatId (Key (upload_of w chatId image))) as H.
  destruct (request_prediction w chatId _) as [r log]. cbn [snd] in *.
  exists log. split; [reflexivity|].
  destruct H as [->|(img & cid & ? & ? & ->)]; [left; reflexivity|right; eauto].
Qed.

Lemma upload_and_predict_result w chatId image :
  match fst (upload_and_predict w chatId image) with
  | Ok message => exists p, message = success_message p
  | Throw _ => True
  end.
Proof.
  unfold upload_and_predict. cbn [call bind].
  destruct (s3_send w _) as [[]|]; [|exact I].
  pose proof (request_prediction_result w chatId (Key (upload_of w chatId image))) as H.
  destruct (request_prediction w chatId _) as [r log]. exact H.
Qed.

Lemma fetchAsBuffer_log w url : snd (fetchAsBuffer w url) = [ImageFetched url].
Proof.
  unfold fetchAsBuffer. cbn [call bind].
  destruct (fetch_get w url) as [res|]; [|reflexivity].
  destruct (image_ok res); cbn; [|reflexivity].
  destruct (image_arrayBuffer res); reflexivity.
Qed.

Lemma resolve_image_log w imageUrl :
  snd (resolve_image w imageUrl) = []
  \/ (startsWith imageUrl (lit "data:") = false
      /\ startsWith imageUrl (lit "http://")
         || startsWith imageUrl (lit "https://") = true
      /\ snd (resolve_image w imageUrl) = [ImageFetched imageUrl]).
Proof.
  unfold resolve_image.
  destruct (startsWith imageUrl (lit "data:")).
  - left. unfold lift. reflexivity.
  - destruct (startsWith imageUrl (lit "http://") || startsWith imageUrl (lit "https://")).
    + right. repeat split. apply fetchAsBuffer_log.
    + left. reflexivity.
Qed.

(** The calls of [detect]: what resolving the image logged, then, when the
    image was resolved, the upload and what followed it. *)
Lemma detect_log w chatId imageUrl :
  snd (detect w chatId imageUrl)
  = snd (resolve_image w imageUrl)
    ++ match fst (resolve_image w imageUrl) with
       | Ok image => snd (upload_and_predict w chatId image)
       | Throw _ => []
       end.
Proof.
  rewrite detect_steps.
  destruct (resolve_image w imageUrl) as [[image|e] log] eqn:H.
  - rewrite (bind_Ok _ _ image log eq_refl). reflexivity.
  - cbn. rewrite app_nil_r. reflexivity.
Qed.

Lemma try_detect_log w chatId imageUrl :
  snd (try_detect w chatId imageUrl)
  = snd (detect w chatId imageUrl)
    ++ match fst (detect w chatId imageUrl) with
       | Ok _ => []
       | Throw e => [ConsoleError e]
       end.
Proof.
  unfold try_detect. destruct (detect w chatId imageUrl) as [[m|e] log]; cbn;
    rewrite ?app_nil_r; reflexivity.
Qed.

Lemma detect_result w chatId imageUrl :
  match fst (detect w chatId imageUrl) with
  | Ok message => exists p, message = success_message p
  | Throw _ => True
  end.
Proof.
  rewrite detect_steps.
  destruct (resolve_image w imageUrl) as [[image|e] log] eqn:H; [|exact I].
  rewrite (bind_Ok _ _ image log eq_refl). cbn [fst].
  apply upload_and_predict_result.
Qed.

End Steps.

(** X1.  [getChatId] takes the first of [data.chatId], [data.chat_id] and
    the [id] of the first message that is present and not empty, and
    [anonymous] when there is none: the chat id is never empty. *)
Theorem getChatId_priority
    (d : option request_data) (ms : option (list chat_message)) :
  let first_id :=
    (ms ≫= (fun l : list chat_message => l !! 0%nat)) ≫= message_id in
  getChatId d ms <> []
  /\ (truthy (d ≫= chatId) = true -> Some (getChatId d ms) = d ≫= chatId)
  /\ (truthy (d ≫= chatId) = false -> truthy (d ≫= chat_id) = true ->
      Some (getChatId d ms) = d ≫= chat_id)
  /\ (truthy (d ≫= chatId) = false -> truthy (d ≫= chat_id) = false ->
      truthy first_id = true -> Some (getChatId d ms) = first_id)
  /\ (truthy (d ≫= chatId) = false -> truthy (d ≫= chat_id) = false ->
      truthy first_id = false -> getChatId d ms = lit "anonymous").
Proof.
  intros first_id. unfold getChatId, or_else. fold first_id.
  destruct (d ≫= chatId) as [[|c1 s1]|], (d ≫= chat_id) as [[|c2 s2]|],
    first_id as [[|c3 s3]|]; cbn [truthy default];
    repeat split; intros; discriminate || reflexivity.
Qed.

(** X2.  The extension of an upload is always one of png, webp, jpg and
    gif. *)
Theorem guessExt_range (ct : option jsstring) :
  guessExtFromContentType ct ∈ [lit "png"; lit "webp"; lit "jpg"; lit "gif"].
Proof.
  unfold guessExtFromContentType.
  repeat match goal with
    | |- context [if ?b then _ else _] => destruct b
    end; rewrite !elem_of_cons; auto.
Qed.

(** X3.  A request without image references (no [data], no [images] or an
    empty list) gets the prompt for an image, and no service is called. *)
Theorem no_image_no_calls (w : world) (req : request_body) :
  (forall imageUrl rest, data req ≫= images <> Some (imageUrl :: rest)) ->
  POST w req
  = ({| body := data_stream prompt_message; headers := stream_headers |}, []).
Proof.
  intros H. unfold POST, POST_message.
  destruct (data req ≫= images) as [[|imageUrl rest]|]; try reflexivity.
  destruct (H imageUrl rest). reflexivity.
Qed.

Lemma no_image_no_calls_witness :
  POST sample_world (request_with [])
  = ({| body := data_stream prompt_message; headers := stream_headers |}, []).
Proof.
  apply (no_image_no_calls sample_world (request_with [])).
  intros imageUrl rest. discriminate.
Defined.

(** X4.  A request makes at most one call of each kind, in this order:
    the fetch of the image, the upload, the prediction request, the error
    log. *)
Theorem calls_in_order (w : world) (req : request_body) :
  List.map stage (snd (POST_message w req)) `sublist_of` [0; 1; 2; 3]%nat.
Proof.
  unfold POST_message.
  destruct (data req ≫= images) as [[|imageUrl rest]|];
    [cbn; repeat constructor| |cbn; repeat constructor].
  rewrite try_detect_log, detect_log.
  set (chatId := getChatId (data req) (messages req)).
  destruct (resolve_image_log w imageUrl) as [Hr|(_ & _ & Hr)]; rewrite Hr;
    (destruct (fst (resolve_image w imageUrl)) as [image|];
     [destruct (upload_and_predict_log w chatId image)
        as (tl & -> & [->|(img & cid & _ & _ & ->)])|]);
    destruct (fst (detect w chatId imageUrl)); cbn; repeat constructor.
Qed.

(** X5.  The message of a response is the prompt for an image, the
    success message of some prediction or the error report of some thrown
    value. *)
Theorem message_is_one_of_three (w : world) (req : request_body) :
  fst (POST_message w req) = prompt_message
  \/ (exists p, fst (POST_message w req) = success_message p)
  \/ (exists e, fst (POST_message w req) = error_message w e).
Proof.
  unfold POST_message.
  destruct (data req ≫= images) as [[|imageUrl rest]|]; auto.
  right. unfold try_detect.
  pose proof (detect_result w (getChatId (data req) (messages req)) imageUrl) as H.
  destruct (detect w _ imageUrl) as [[message|e] log]; cbn in *.
  - left. exact H.
  - right. eauto.
Qed.

(** X6.  When the storage service refuses the upload of a resolved image,
    the request ends with the error report of that refusal; the detection
    service is not called. *)
Theorem upload_failure_stops
    (w : world) (chatId imageUrl : jsstring) (image : decoded_image)
    (log0 : list event) (e : thrown) :
  resolve_image w imageUrl = (Ok image, log0) ->
  s3_send w (upload_of w chatId image) = Throw e ->
  try_detect w chatId imageUrl
  = (error_message w e,
     log0 ++ [ObjectPut (upload_of w chatId image); ConsoleError e]).
Proof.
  intros Hres Hput.
  rewrite (try_detect_throw _ _ _ e (log0 ++ [ObjectPut (upload_of w chatId image)])).
  - rewrite <- app_assoc. reflexivity.
  - rewrite detect_steps, (bind_Ok _ _ _ _ Hres).
    unfold upload_and_predict. cbn [call bind]. rewrite Hput. reflexivity.
Qed.

Lemma upload_failure_stops_witness :
  exists image,
    try_detect storage_down (lit "chat-7") (lit "data:image/gif;base64,R0lG")
    = (error_message storage_down (JsError (lit "Access Denied")),
       [ObjectPut (upload_of storage_down (lit "chat-7") image);
        ConsoleError (JsError (lit "Access Denied"))])
    /\ buffer image = [71; 73; 70]
    /\ Key (upload_of storage_down (lit "chat-7") image)
       = lit "chat-7/original/1700000000000.gif".
Proof.
  eexists. split.
  - apply (upload_failure_stops storage_down (lit "chat-7")
             (lit "data:image/gif;base64,R0lG") _ [] _ eq_refl eq_refl).
  - split; vm_compute; reflexivity.
Defined.

(** X7.  [fetchAsBuffer] fetches the address once.  A response that is not
    ok is thrown as [Failed to fetch image:] with its status; otherwise the
    result is the body with the content type of the response, which may be
    missing. *)
Theorem fetchAsBuffer_outcome (w : world) (url : jsstring) (res : image_response) :
  fetch_get w url = Ok res ->
  fetchAsBuffer w url
  = (if image_ok res
     then match image_arrayBuffer res with
          | Ok arrayBuf =>
              Ok {| buffer := arrayBuf; contentType := image_content_type res |}
          | Throw e => Throw e
          end
     else Throw (JsError (lit "Failed to fetch image: "
                          ++ number_toString (image_status res))),
     [ImageFetched url]).
Proof.
  intros Hres. unfold fetchAsBuffer. cbn [call bind]. rewrite Hres.
  destruct (image_ok res); cbn; [|reflexivity].
  destruct (image_arrayBuffer res); reflexivity.
Qed.

Lemma fetchAsBuffer_outcome_witness :
  fetchAsBuffer image_missing (lit "https://host/cat.png")
  = (Throw (JsError (lit "Failed to fetch image: 404")),
     [ImageFetched (lit "https://host/cat.png")])
  /\ fetchAsBuffer sample_world (lit "https://host/cat.png")
     = (Ok {| buffer := [137; 80; 78; 71];
              contentType := Some (lit "image/png") |},
        [ImageFetched (lit "https://host/cat.png")]).
Proof.
  split.
  - apply (fetchAsBuffer_outcome image_missing (lit "https://host/cat.png") _ eq_refl).
  - apply (fetchAsBuffer_outcome sample_world (lit "https://host/cat.png") _ eq_refl).
Defined.

(** X8.  An image that cannot be fetched ends the request before anything
    is uploaded: the response is the error report of the fetch, and the
    only call made is the fetch. *)
Theorem fetch_failure_stops
    (w : world) (chatId imageUrl : jsstring) (res : image_response) :
  startsWith imageUrl (lit "data:") = false ->
  startsWith imageUrl (lit "http://") || startsWith imageUrl (lit "https://") = true ->
  fetch_get w imageUrl = Ok res ->
  image_ok res = false ->
  let e := JsError (lit "Failed to fetch image: "
                    ++ number_toString (image_status res)) in
  try_detect w chatId imageUrl
  = (error_message w e, [ImageFetched imageUrl; ConsoleError e]).
Proof.
  intros Hdata Hhttp Hres Hok e.
  apply (try_detect_throw _ _ _ e [ImageFetched imageUrl]).
  apply detect_resolve_throw. unfold resolve_image. rewrite Hdata, Hhttp.
  unfold fetchAsBuffer. cbn [call bind]. rewrite Hres, Hok. reflexivity.
Qed.

Lemma fetch_failure_stops_witness :
  let e := JsError (lit "Failed to fetch image: 404") in
  try_detect image_missing (lit "chat-7") (lit "http://host/cat.png")
  = (error_message image_missing e,
     [ImageFetched (lit "http://host/cat.png"); ConsoleError e]).
Proof.
  apply (fetch_failure_stops image_missing (lit "chat-7")
           (lit "http://host/cat.png") _ eq_refl eq_refl eq_refl eq_refl).
Defined.

(** X9.  When the detection service answers with a status that is not ok,
    the request ends with the error report [Prediction API error:] with the
    status and the body of the answer, the empty text when the body cannot
    be read; the image has been uploaded by then. *)
Theorem prediction_error_is_reported
    (w : world) (chatId imageUrl : jsstring) (image : decoded_image)
    (log0 : list event) (img cid : jsstring) (resp : prediction_response) :
  resolve_image w imageUrl = (Ok image, log0) ->
  s3_send w (upload_of w chatId image) = Ok tt ->
  encodeURIComponent (Key (upload_of w chatId image)) = Ok img ->
  encodeURIComponent chatId = Ok cid ->
  fetch_post w (prediction_url w img cid) = Ok resp ->
  prediction_ok resp = false ->
  let e := JsError (lit "Prediction API error: "
                    ++ number_toString (prediction_status resp) ++ lit " "
                    ++ match prediction_text resp with
                       | Ok text => text
                       | Throw _ => []
                       end) in
  try_detect w chatId imageUrl
  = (error_message w e,
     log0 ++ [ObjectPut (upload_of w chatId image);
              PredictionRequested (prediction_url w img cid);
              ConsoleError e]).
Proof.
  intros Hres Hput Himg Hcid Hpost Hok e.
  rewrite (try_detect_throw _ _ _ e
             (log0 ++ [ObjectPut (upload_of w chatId image);
                       PredictionRequested (prediction_url w img cid)])).
  - rewrite <- app_assoc. reflexivity.
  - rewrite detect_steps, (bind_Ok _ _ _ _ Hres).
    unfold upload_and_predict, request_prediction, read_prediction.
    cbn [call bind]. rewrite Hput, Himg, Hcid. cbn [lift bind call].
    rewrite Hpost, Hok. reflexivity.
Qed.

Lemma prediction_error_is_reported_witness :
  let e := JsError (lit "Prediction API error: 503 overloaded") in
  exists cmd,
    try_detect detector_down (lit "chat 7") (lit "data:image/gif;base64,R0lG")
    = (error_message detector_down e,
       [ObjectPut cmd;
        PredictionRequested
          (lit "http://yolo:8080/predict?img=chat%207%2Foriginal%2F1700000000000.gif&chat_id=chat%207");
        ConsoleError e]).
Proof.
  intros e. eexists.
  apply (prediction_error_is_reported detector_down (lit "chat 7")
           (lit "data:image/gif;base64,R0lG") _ [] _ _ _
           eq_refl eq_refl eq_refl eq_refl eq_refl eq_refl).
Defined.

(** X10.  When every step succeeds the message is the success message of
    the prediction the detection service returned, and the calls are the
    upload followed by the prediction request for the uploaded key. *)
Theorem detection_succeeds
    (w : world) (chatId imageUrl : jsstring) (image : decoded_image)
    (log0 : list event) (img cid : jsstring) (resp : prediction_response)
    (p : prediction) :
  resolve_image w imageUrl = (Ok image, log0) ->
  s3_send w (upload_of w chatId image) = Ok tt ->
  encodeURIComponent (Key (upload_of w chatId image)) = Ok img ->
  encodeURIComponent chatId = Ok cid ->
  fetch_post w (prediction_url w img cid) = Ok resp ->
  prediction_ok resp = true ->
  prediction_json resp = Ok p ->
  try_detect w chatId imageUrl
  = (success_message p,
     log0 ++ [ObjectPut (upload_of w chatId image);
              PredictionRequested (prediction_url w img cid)]).
Proof.
  intros Hres Hput Himg Hcid Hpost Hok Hjson.
  unfold try_detect. rewrite detect_steps, (bind_Ok _ _ _ _ Hres).
  unfold upload_and_predict, request_prediction, read_prediction.
  cbn [call bind]. rewrite Hput, Himg, Hcid. cbn [lift bind call].
  rewrite Hpost, Hok, Hjson. reflexivity.
Qed.

Lemma detection_succeeds_witness :
  exists cmd url,
    try_detect sample_world (lit "chat-7") (lit "https://host/cat.png")
    = (success_message sample_prediction,
       [ImageFetched (lit "https://host/cat.png"); ObjectPut cmd;
        PredictionRequested url])
    /\ Key cmd = lit "chat-7/original/1700000000000.png"
    /\ ContentType cmd = lit "image/png".
Proof.
  eexists _, _. split.
  - apply (detection_succeeds sample_world (lit "chat-7")
             (lit "https://host/cat.png") _ [_] _ _ _ _
             eq_refl eq_refl eq_refl eq_refl eq_refl eq_refl eq_refl).
  - split; vm_compute; reflexivity.
Defined.

Section Uploads.

Lemma guessExt_cases ct :
  guessExtFromContentType ct ∈ [lit "png"; lit "webp"; lit "jpg"; lit "gif"].
Proof.
  unfold guessExtFromContentType.
  repeat match goal with
    | |- context [if ?b then _ else _] => destruct b
    end; rewrite !elem_of_cons; auto.
Qed.

Lemma upload_content_type w chatId image :
  ContentType (upload_of w chatId image) <> []
  /\ (truthy (contentType image) = true ->
      Some (ContentType (upload_of w chatId image)) = contentType image)
  /\ (truthy (contentType image) = false ->
      ContentType (upload_of w chatId image) = lit "image/jpeg").
Proof.
  unfold upload_of, or_else. cbn [ContentType].
  destruct (contentType image) as [[|c s]|]; cbn [truthy default];
    repeat split; intros; discriminate || reflexivity.
Qed.

(** The events of a request with an image, apart from the error log. *)
Lemma POST_message_events w req ev :
  ev ∈ snd (POST_message w req) ->
  exists imageUrl rest,
    data req ≫= images = Some (imageUrl :: rest)
    /\ (ev ∈ snd (resolve_image w imageUrl)
        \/ (exists image,
              fst (resolve_image w imageUrl) = Ok image
              /\ ev ∈ snd (upload_and_predict w
                             (getChatId (data req) (messages req)) image))
        \/ exists e, ev = ConsoleError e).
Proof.
  unfold POST_message.
  destruct (data req ≫= images) as [[|imageUrl rest]|];
    [intros []%elem_of_nil| |intros []%elem_of_nil].
  rewrite try_detect_log, detect_log. intros [[H|H]%elem_of_app|H]%elem_of_app;
    exists imageUrl, rest; (split; [reflexivity|]).
  - left. exact H.
  - right. left. destruct (fst (resolve_image w imageUrl)) as [image|];
      [eauto|(apply elem_of_nil in H; destruct H)].
  - right. right. destruct (fst (detect w _ imageUrl)) as [|e];
      [(apply elem_of_nil in H; destruct H)|].
    apply list_elem_of_singleton in H. eauto.
Qed.

End Uploads.

(** X11.  Whatever a request uploads, it uploads to the configured bucket
    under the key made of the chat id, [/original/], the clock reading and
    one of the four extensions; the body is the resolved image of the first
    reference, and the content type is that of the image, or [image/jpeg]
    when the image has none. *)
Theorem uploaded_object (w : world) (req : request_body) (cmd : put_object) :
  ObjectPut cmd ∈ snd (POST_message w req) ->
  exists imageUrl rest image ext,
    data req ≫= images = Some (imageUrl :: rest)
    /\ fst (resolve_image w imageUrl) = Ok image
    /\ ext ∈ [lit "png"; lit "webp"; lit "jpg"; lit "gif"]
    /\ Key cmd = getChatId (data req) (messages req) ++ lit "/original/"
                 ++ number_toString (Date_now w) ++ lit "." ++ ext
    /\ Bucket cmd = AWS_S3_BUCKET w
    /\ Body cmd = buffer image
    /\ ContentType cmd <> []
    /\ (truthy (contentType image) = true -> Some (ContentType cmd) = contentType image)
    /\ (truthy (contentType image) = false -> ContentType cmd = lit "image/jpeg").
Proof.
  intros (imageUrl & rest & Himg & [H|[(image & Hres & H)|[e H]]])%POST_message_events;
    [|exists imageUrl, rest, image, (guessExtFromContentType (contentType image))|discriminate H].
  - destruct (resolve_image_log w imageUrl) as [Hr|(_ & _ & Hr)]; rewrite Hr in H.
    + (apply elem_of_nil in H; destruct H).
    + apply list_elem_of_singleton in H. discriminate H.
  - destruct (upload_and_predict_log w (getChatId (data req) (messages req)) image)
      as (tl & Hlog & Htl).
    rewrite Hlog in H. apply elem_of_cons in H as [[= ->]|H].
    + split; [exact Himg|]. split; [exact Hres|].
      split; [apply guessExt_cases|]. split; [reflexivity|].
      split; [reflexivity|]. split; [reflexivity|]. apply upload_content_type.
    + destruct Htl as [->|(img & cid & _ & _ & ->)].
      * (apply elem_of_nil in H; destruct H).
      * apply list_elem_of_singleton in H. discriminate H.
Qed.

Lemma uploaded_object_witness :
  exists cmd,
    ObjectPut cmd
      ∈ snd (POST_message sample_world (request_with [lit "data:image/gif;base64,R0lG"]))
    /\ Key cmd = lit "anonymous/original/1700000000000.gif"
    /\ Bucket cmd = Some (lit "images")
    /\ Body cmd = [71; 73; 70]
    /\ ContentType cmd = lit "image/gif".
Proof.
  assert (Hin : ObjectPut (upload_of sample_world (lit "anonymous")
                             {| buffer := [71; 73; 70];
                                contentType := Some (lit "image/gif") |})
                ∈ snd (POST_message sample_world
                         (request_with [lit "data:image/gif;base64,R0lG"])))
    by (apply list_elem_of_here).
  eexists. split; [exact Hin|].
  destruct (uploaded_object _ _ _ Hin) as (_ & _ & _ & _ & _ & _ & _ & _ & _).
  repeat split; vm_compute; reflexivity.
Defined.

(** X12.  The only address a request fetches is its first image reference,
    and only when the reference starts with [http://] or [https://] and
    not with [data:]: an inline image is never fetched. *)
Theorem fetched_image (w : world) (req : request_body) (url : jsstring) :
  ImageFetched url ∈ snd (POST_message w req) ->
  (exists rest, data req ≫= images = Some (url :: rest))
  /\ startsWith url (lit "data:") = false
  /\ startsWith url (lit "http://") || startsWith url (lit "https://") = true.
Proof.
  intros (imageUrl & rest & Himg & [H|[(image & Hres & H)|[e H]]])%POST_message_events;
    [| |discriminate H].
  - destruct (resolve_image_log w imageUrl) as [Hr|(Hdata & Hhttp & Hr)];
      rewrite Hr in H.
    + (apply elem_of_nil in H; destruct H).
    + apply list_elem_of_singleton in H. injection H as ->. eauto.
  - destruct (upload_and_predict_log w (getChatId (data req) (messages req)) image)
      as (tl & Hlog & Htl).
    rewrite Hlog in H. apply elem_of_cons in H as [H|H]; [discriminate H|].
    destruct Htl as [->|(img & cid & _ & _ & ->)].
    + (apply elem_of_nil in H; destruct H).
    + apply list_elem_of_singleton in H. discriminate H.
Qed.

Lemma fetched_image_witness :
  ImageFetched (lit "https://host/cat.png")
    ∈ snd (POST_message sample_world (request_with [lit "https://host/cat.png"]))
  /\ startsWith (lit "https://host/cat.png") (lit "data:") = false.
Proof.
  assert (Hin : ImageFetched (lit "https://host/cat.png")
                ∈ snd (POST_message sample_world
                         (request_with [lit "https://host/cat.png"])))
    by (apply list_elem_of_here).
  split; [exact Hin|].
  destruct (fetched_image _ _ _ Hin) as (_ & Hdata & _). exact Hdata.
Defined.

Section Uri.

Lemma uri_unreserved_ascii c : uri_unreserved c = true -> c < 128.
Proof.
  unfold uri_unreserved, is_alnum. intros [H|H]%orb_true_iff.
  - revert H. cmp_lia; intros; discriminate || lia.
  - apply bool_decide_eq_true in H.
    repeat (apply elem_of_cons in H as [->|H]; [lia|]).
    apply elem_of_nil in H. destruct H.
Qed.

Lemma upper_hex_digit_unreserved d :
  d < 16 -> uri_unreserved (upper_hex_digit d) = true.
Proof.
  intros Hd. unfold uri_unreserved, upper_hex_digit, is_alnum.
  apply orb_true_iff. left. destruct (N.ltb_spec d 10); cmp_lia; reflexivity.
Qed.

Lemma url_safe_percent_encode bs :
  bytes bs -> Forall (fun c => url_safe c = true) (percent_encode bs).
Proof.
  induction 1 as [|b bs Hb _ IH]; [constructor|].
  unfold percent_encode. cbn [flat_map app]. unfold bytes in *.
  constructor; [reflexivity|].
  constructor; [unfold url_safe; rewrite upper_hex_digit_unreserved by lia; reflexivity|].
  constructor; [unfold url_safe; rewrite upper_hex_digit_unreserved by lia; reflexivity|].
  exact IH.
Qed.

Lemma utf8_code_point_bytes cp : cp < 1114112 -> bytes (utf8_code_point cp).
Proof.
  intros Hcp. unfold utf8_code_point, bytes.
  destruct (N.ltb_spec cp 128); [|destruct (N.ltb_spec cp 2048);
    [|destruct (N.ltb_spec cp 65536)]]; repeat constructor; lia.
Qed.

Lemma pair_code_point_range c d :
  is_high c = true -> is_low d = true -> pair_code_point c d < 1114112.
Proof.
  unfold is_high, is_low, pair_code_point. intros Hc Hd.
  assert (55296 <= c < 56320) by (revert Hc; cmp_lia; discriminate).
  assert (56320 <= d < 57344) by (revert Hd; cmp_lia; discriminate).
  lia.
Qed.

Lemma is_low_not_high c : is_low c = true -> is_high c = false.
Proof. unfold is_high, is_low. cmp_lia; intros; discriminate || reflexivity. Qed.

(** What [encodeURIComponent] makes of a string of code units. *)
Lemma encodeURIComponent_cases s :
  Forall code_unit s ->
  match encodeURIComponent s with
  | Ok t => well_formed s = true /\ Forall (fun c => url_safe c = true) t
  | Throw e => well_formed s = false /\ e = URIError
  end.
Proof.
  remember (List.length s) as n eqn:Hn.
  revert s Hn. induction (lt_wf n) as [n _ IH]. intros s -> Hs.
  destruct s as [|c s']; [split; [reflexivity|constructor]|].
  apply Forall_cons in Hs as [Hc Hs]. unfold code_unit in Hc.
  cbn [encodeURIComponent well_formed].
  assert (IHs' := IH (List.length s') ltac:(cbn; lia) s' eq_refl Hs).
  destruct (uri_unreserved c) eqn:Hu.
  - destruct (not_surrogate c) as [-> ->];
      [apply uri_unreserved_ascii in Hu; lia|]. cbn [negb andb].
    destruct (encodeURIComponent s') as [t|e]; [|exact IHs'].
    destruct IHs' as [Hwf Ht]. split; [exact Hwf|].
    constructor; [unfold url_safe; rewrite Hu; reflexivity|exact Ht].
  - destruct (is_low c) eqn:Hl.
    + rewrite (is_low_not_high c Hl). split; reflexivity.
    + destruct (is_high c) eqn:Hh.
      * destruct s' as [|d s'']; [split; reflexivity|].
        destruct (is_low d) eqn:Hd; [|split; reflexivity]. cbn [andb].
        apply Forall_cons in Hs as [_ Hs].
        assert (IHs'' := IH (List.length s'') ltac:(cbn; lia) s'' eq_refl Hs).
        destruct (encodeURIComponent s'') as [t|e]; [|exact IHs''].
        destruct IHs'' as [Hwf Ht]. split; [exact Hwf|].
        apply Forall_app. split; [|exact Ht].
        apply url_safe_percent_encode, utf8_code_point_bytes,
          pair_code_point_range; assumption.
      * cbn [negb andb].
        destruct (encodeURIComponent s') as [t|e]; [|exact IHs'].
        destruct IHs' as [Hwf Ht]. split; [exact Hwf|].
        apply Forall_app. split; [|exact Ht].
        apply url_safe_percent_encode, utf8_code_point_bytes. lia.
Qed.

End Uri.

(** X13.  [encodeURIComponent], as the handler uses it for the key and the
    chat id: on a string without unpaired surrogates it returns a text of
    unreserved characters and percent signs; on a string with an unpaired
    surrogate it throws [URI malformed], and nothing else. *)
Theorem encodeURIComponent_outcome (s : jsstring) :
  Forall code_unit s ->
  (well_formed s = true ->
   exists t, encodeURIComponent s = Ok t
             /\ Forall (fun c => uri_unreserved c = true \/ c = 37) t)
  /\ (well_formed s = false -> encodeURIComponent s = Throw URIError).
Proof.
  intros Hs. pose proof (encodeURIComponent_cases s Hs) as H.
  destruct (encodeURIComponent s) as [t|e].
  - destruct H as [Hwf Ht]. split; [|congruence].
    intros _. exists t. split; [reflexivity|].
    eapply Forall_impl; [exact Ht|]. cbn. unfold url_safe.
    intros c [Hc|Hc%N.eqb_eq]%orb_true_iff; auto.
  - destruct H as [Hwf ->]. split; [congruence|reflexivity].
Qed.

Lemma encodeURIComponent_outcome_witness :
  encodeURIComponent (lit "chat 7/" ++ [233; 55357; 56589])
  = Ok (lit "chat%207%2F%C3%A9%F0%9F%94%8D")
  /\ encodeURIComponent (lit "chat" ++ [55357]) = Throw URIError.
Proof.
  assert (H1 : Forall code_unit (lit "chat 7/" ++ [233; 55357; 56589]))
    by (repeat constructor).
  assert (H2 : Forall code_unit (lit "chat" ++ [55357])) by (repeat constructor).
  destruct (encodeURIComponent_outcome _ H1) as [_ _].
  destruct (encodeURIComponent_outcome _ H2) as [_ Hthrow].
  split; [reflexivity|]. apply Hthrow. reflexivity.
Defined.

Section DataUrlPattern.

Lemma no_line_terminator_app a b :
  no_line_terminator (a ++ b) = no_line_terminator a && no_line_terminator b.
Proof. unfold no_line_terminator. apply forallb_app. Qed.

Lemma match_tail_Some s data :
  match_tail s = Some data ->
  s = lit ";base64," ++ data /\ no_line_terminator data = true.
Proof.
  unfold match_tail.
  destruct (strip_prefix (lit ";base64,") s) as [r|] eqn:Hr; [|discriminate].
  destruct (no_line_terminator r) eqn:Hlt; [|discriminate].
  intros [= <-]. split; [apply strip_prefix_Some, Hr|exact Hlt].
Qed.

Lemma match_tail_nil : match_tail [] = None.
Proof. reflexivity. Qed.

(** What the lazy group and the tail match: the group takes [mid], the
    text up to the first place where the tail matches. *)
Lemma match_lazy_Some s acc ct data :
  match_lazy acc s = Some (ct, data) ->
  exists mid,
    ct = rev acc ++ mid /\ s = mid ++ lit ";base64," ++ data
    /\ no_line_terminator mid = true /\ no_line_terminator data = true
    /\ forall mid' data',
         s = mid' ++ lit ";base64," ++ data' ->
         (List.length mid <= List.length mid')%nat.
Proof.
  revert acc. induction s as [|c s IH]; intros acc.
  - cbn [match_lazy]. rewrite match_tail_nil. discriminate.
  - cbn [match_lazy]. destruct (match_tail (c :: s)) as [b64|] eqn:Htail.
    + intros [= <- <-]. apply match_tail_Some in Htail as [Hs Hlt].
      exists []. rewrite app_nil_r. repeat split; try assumption || reflexivity.
      intros; cbn; lia.
    + destruct (is_line_terminator c) eqn:Hc; [discriminate|].
      intros (mid & -> & -> & Hmid & Hdata & Hmin)%IH.
      exists (c :: mid). cbn [rev]. rewrite <- app_assoc.
      repeat split; try assumption || reflexivity.
      * cbn [no_line_terminator forallb]. rewrite Hc. exact Hmid.
      * intros [|c' mid'] data' Heq.
        -- exfalso. cbn [app] in Heq.
           assert (Hsome : match_tail (c :: mid ++ lit ";base64," ++ data) = Some data').
           { rewrite Heq. unfold match_tail. rewrite strip_prefix_app.
             assert (Hall : no_line_terminator (lit ";base64," ++ data') = true).
             { rewrite <- Heq. cbn [no_line_terminator forallb]. rewrite Hc.
               fold (no_line_terminator (mid ++ lit ";base64," ++ data)).
               rewrite !no_line_terminator_app, Hmid, Hdata. reflexivity. }
             rewrite no_line_terminator_app in Hall.
             apply andb_prop in Hall as [_ ->]. reflexivity. }
           congruence.
        -- injection Heq as -> Heq. cbn [List.length].
           specialize (Hmin _ _ Heq). lia.
Qed.

End DataUrlPattern.

(** X14.  What the pattern of [parseDataUrl] matches: the reference is
    [data:], a type, [;base64,] and the data; the type is not empty,
    neither part has a line terminator, and the type is the shortest
    possible, it ends at the first [;base64,] after its first character. *)
Theorem exec_data_url_matches (url ct data : jsstring) :
  exec_data_url url = Some (ct, data) ->
  url = lit "data:" ++ ct ++ lit ";base64," ++ data
  /\ ct <> []
  /\ no_line_terminator ct = true
  /\ no_line_terminator data = true
  /\ forall ct' data',
       url = lit "data:" ++ ct' ++ lit ";base64," ++ data' -> ct' <> [] ->
       (List.length ct <= List.length ct')%nat.
Proof.
  unfold exec_data_url.
  destruct (strip_prefix (lit "data:") url) as [[|c s]|] eqn:Hp; try discriminate.
  apply strip_prefix_Some in Hp as ->.
  destruct (is_line_terminator c) eqn:Hc; [discriminate|].
  intros (mid & -> & -> & Hmid & Hdata & Hmin)%match_lazy_Some.
  cbn [rev app]. repeat split; try assumption || discriminate.
  - cbn [no_line_terminator forallb]. rewrite Hc. exact Hmid.
  - intros [|c' ct'] data' Heq Hne; [congruence|].
    apply app_inv_head in Heq. injection Heq as -> Heq.
    cbn [List.length]. specialize (Hmin _ _ Heq). lia.
Qed.

Lemma exec_data_url_matches_witness :
  exec_data_url (lit "data:a;base64,;base64,QUJD") = Some (lit "a", lit ";base64,QUJD")
  /\ (List.length (lit "a") <= List.length (lit "a;base64,"))%nat.
Proof.
  destruct (exec_data_url_matches (lit "data:a;base64,;base64,QUJD")
              (lit "a") (lit ";base64,QUJD") eq_refl)
    as (_ & _ & _ & _ & Hmin).
  split; [reflexivity|].
  apply (Hmin (lit "a;base64,") (lit "QUJD")); [reflexivity|discriminate].
Defined.

(** X15.  [parseDataUrl] on the data URL of some bytes, written with a
    type that has no semicolon: the result holds the bytes and the type. *)
Theorem parseDataUrl_of_bytes (ct : jsstring) (bs : list N) :
  ct <> [] -> 59 ∉ ct -> no_line_terminator ct = true -> bytes bs ->
  parseDataUrl (lit "data:" ++ ct ++ lit ";base64," ++ Buffer_toString_base64 bs)
  = Ok {| buffer := bs; contentType := Some ct |}.
Proof.
  intros Hne Hsemi Hct Hbs. unfold parseDataUrl.
  rewrite exec_data_url_parts
    by (assumption || apply no_line_terminator_base64).
  rewrite Buffer_from_toString by assumption. reflexivity.
Qed.

Lemma parseDataUrl_of_bytes_witness :
  parseDataUrl (lit "data:image/png;base64,iVBORw==")
  = Ok {| buffer := [137; 80; 78; 71]; contentType := Some (lit "image/png") |}.
Proof.
  apply (parseDataUrl_of_bytes (lit "image/png") [137; 80; 78; 71]).
  - discriminate.
  - apply (bool_decide_eq_false_1 (59 ∈ lit "image/png")). reflexivity.
  - reflexivity.
  - repeat constructor.
Defined.

Section Lines.

Import JSON.

Lemma split_length s : List.length (split newline s) = S (line_breaks s).
Proof.
  unfold line_breaks. induction s as [|c s IH]; [reflexivity|].
  cbn [split List.filter]. rewrite (N.eqb_sym newline c).
  destruct (c =? newline).
  - cbn [List.length]. rewrite IH. reflexivity.
  - destruct (split_nonempty newline s) as (l & ls & Hs). rewrite Hs in *.
    exact IH.
Qed.

Lemma utf8_code_point_no_newline cp : cp <> 10 -> 10 ∉ utf8_code_point cp.
Proof.
  intros Hcp. unfold utf8_code_point.
  repeat match goal with
    | |- context [if ?b then _ else _] => destruct b
    end;
    repeat (apply not_elem_of_cons; split; [lia|]); apply not_elem_of_nil.
Qed.

Lemma not_elem_of_app_2 (x : N) a b : x ∉ a -> x ∉ b -> x ∉ a ++ b.
Proof. intros Ha Hb [H|H]%elem_of_app; contradiction. Qed.

Lemma surrogate_not_newline c : is_high c || is_low c = true -> c <> 10.
Proof. unfold is_high, is_low. cmp_lia; intros; discriminate || lia. Qed.

Lemma pair_code_point_not_newline c d : pair_code_point c d <> 10.
Proof. unfold pair_code_point. lia. Qed.

Lemma encode_no_newline s : 10 ∉ s -> 10 ∉ TextEncoder_encode s.
Proof.
  remember (List.length s) as n eqn:Hn.
  revert s Hn. induction (lt_wf n) as [n _ IH]. intros s -> Hs.
  destruct s as [|c s']; [apply not_elem_of_nil|].
  apply not_elem_of_cons in Hs as [Hc Hs]. cbn [TextEncoder_encode].
  assert (IHs' := IH (List.length s') ltac:(cbn; lia) s' eq_refl Hs).
  destruct (is_high c).
  - destruct s' as [|d s'']; [apply utf8_code_point_no_newline; lia|].
    destruct (is_low d).
    + apply not_elem_of_cons in Hs as [_ Hs].
      apply not_elem_of_app_2;
        [apply utf8_code_point_no_newline, pair_code_point_not_newline|].
      apply (IH (List.length s'')); cbn; lia || reflexivity || assumption.
    + apply not_elem_of_app_2; [apply utf8_code_point_no_newline; lia|exact IHs'].
  - destruct (is_low c); apply not_elem_of_app_2; try exact IHs';
      apply utf8_code_point_no_newline; lia || congruence.
Qed.

Lemma encode_line s :
  TextEncoder_encode (s ++ [newline]) = TextEncoder_encode s ++ [newline].
Proof.
  remember (List.length s) as n eqn:Hn.
  revert s Hn. induction (lt_wf n) as [n _ IH]. intros s ->.
  destruct s as [|c s']; [reflexivity|].
  cbn [app TextEncoder_encode].
  assert (IHs' := IH (List.length s') ltac:(cbn; lia) s' eq_refl).
  destruct (is_high c).
  - destruct s' as [|d s'']; [reflexivity|]. cbn [app].
    destruct (is_low d).
    + rewrite (IH (List.length s'')) by (cbn; lia || reflexivity).
      rewrite app_assoc. reflexivity.
    + change (d :: s'' ++ [newline]) with ((d :: s'') ++ [newline]).
      rewrite IHs', app_assoc. reflexivity.
  - destruct (is_low c); rewrite IHs', app_assoc; reflexivity.
Qed.

Lemma hex_digit_not_newline d : hex_digit d <> 10.
Proof. unfold hex_digit. destruct (d <? 10); lia. Qed.

Lemma unicode_escape_no_newline c : 10 ∉ unicode_escape c.
Proof.
  unfold unicode_escape, backslash.
  repeat (apply not_elem_of_cons; split;
          [first [lia | apply not_eq_sym, hex_digit_not_newline]|]).
  apply not_elem_of_nil.
Qed.

Lemma quote_unit_no_newline c : 10 ∉ quote_unit c.
Proof.
  unfold quote_unit, quote, backslash.
  destruct (N.eqb_spec c 8); [|destruct (N.eqb_spec c 9);
    [|destruct (N.eqb_spec c 10); [|destruct (N.eqb_spec c 12);
      [|destruct (N.eqb_spec c 13); [|destruct (N.eqb_spec c 34);
        [|destruct (N.eqb_spec c 92); [|destruct (c <? 32)]]]]]]];
    try apply unicode_escape_no_newline;
    repeat (apply not_elem_of_cons; split; [lia|]); apply not_elem_of_nil.
Qed.

Lemma quote_body_no_newline s : 10 ∉ quote_body s.
Proof.
  remember (List.length s) as n eqn:Hn.
  revert s Hn. induction (lt_wf n) as [n _ IH]. intros s ->.
  destruct s as [|c s']; [apply not_elem_of_nil|].
  cbn [quote_body].
  assert (IHs' := IH (List.length s') ltac:(cbn; lia) s' eq_refl).
  destruct (is_high c) eqn:Hh.
  - destruct s' as [|d s'']; [apply unicode_escape_no_newline|].
    destruct (is_low d) eqn:Hl.
    + apply not_elem_of_cons. split;
        [apply not_eq_sym, surrogate_not_newline; rewrite Hh; reflexivity|].
      apply not_elem_of_cons. split;
        [apply not_eq_sym, surrogate_not_newline; rewrite Hl; apply orb_true_r|].
      apply (IH (List.length s'')); cbn; lia || reflexivity.
    + apply not_elem_of_app_2; [apply unicode_escape_no_newline|exact IHs'].
  - destruct (is_low c); apply not_elem_of_app_2; try exact IHs';
      [apply unicode_escape_no_newline|apply quote_unit_no_newline].
Qed.

Lemma stringify_string_no_newline s : 10 ∉ stringify_string s.
Proof.
  unfold stringify_string, quote. apply not_elem_of_cons. split; [lia|].
  apply not_elem_of_app_2; [apply quote_body_no_newline|].
  apply not_elem_of_cons. split; [lia|apply not_elem_of_nil].
Qed.

Lemma digits_no_newline u : 10 ∉ digits_of_uint u.
Proof.
  induction u; cbn [digits_of_uint]; [apply not_elem_of_nil|..];
    (apply not_elem_of_cons; split; [lia|assumption]).
Qed.

Lemma join_no_newline sep parts :
  10 ∉ sep -> Forall (fun p => 10 ∉ p) parts -> 10 ∉ join sep parts.
Proof.
  intros Hsep Hparts. induction Hparts as [|p ps Hp Hps IH]; [apply not_elem_of_nil|].
  destruct ps as [|q ps]; [exact Hp|].
  change (join sep (p :: q :: ps)) with (p ++ sep ++ join sep (q :: ps)).
  apply not_elem_of_app_2; [exact Hp|]. apply not_elem_of_app_2; assumption.
Qed.

Lemma closed_no_newline s : forallb (fun c => negb (c =? 10)) s = true -> 10 ∉ s.
Proof.
  induction s as [|c s IH]; cbn; [intros; apply not_elem_of_nil|].
  intros [Hc Hs]%andb_prop. apply not_elem_of_cons.
  split; [|apply IH, Hs]. apply negb_true_iff, N.eqb_neq in Hc. congruence.
Qed.

Lemma Obj_no_newline fields :
  Forall (fun kv => 10 ∉ stringify (snd kv)) fields ->
  10 ∉ stringify (Obj fields).
Proof.
  intros H. rewrite stringify_Obj.
  apply not_elem_of_app_2; [apply closed_no_newline; reflexivity|].
  apply not_elem_of_app_2; [|apply closed_no_newline; reflexivity].
  apply join_no_newline; [apply closed_no_newline; reflexivity|].
  induction H as [|kv fields Hv _ IH]; [constructor|].
  cbn [List.map]. constructor; [|exact IH].
  unfold member_text. apply not_elem_of_app_2; [apply stringify_string_no_newline|].
  apply not_elem_of_app_2; [apply closed_no_newline; reflexivity|exact Hv].
Qed.

Lemma usage_no_newline message : 10 ∉ stringify (usage message).
Proof.
  unfold usage. apply Obj_no_newline.
  repeat (apply Forall_cons; split; [apply digits_no_newline|]).
  apply Forall_nil. exact I.
Qed.

Lemma finish_step_no_newline message : 10 ∉ stringify (finish_step message).
Proof.
  unfold finish_step. apply Obj_no_newline.
  apply Forall_cons. split; [apply stringify_string_no_newline|].
  apply Forall_cons. split; [apply usage_no_newline|].
  apply Forall_cons. split; [apply closed_no_newline; reflexivity|].
  apply Forall_nil. exact I.
Qed.

Lemma finish_message_no_newline message : 10 ∉ stringify (finish_message message).
Proof.
  unfold finish_message. apply Obj_no_newline.
  apply Forall_cons. split; [apply stringify_string_no_newline|].
  apply Forall_cons. split; [apply usage_no_newline|].
  apply Forall_nil. exact I.
Qed.

(** A frame whose tag and payload have no line break is one line. *)
Lemma frame_line tag payload :
  tag <> 10 -> 10 ∉ payload ->
  exists line, frame tag payload = line ++ [newline] /\ 10 ∉ line.
Proof.
  intros Htag Hpayload. unfold frame.
  exists (TextEncoder_encode (tag :: 58 :: payload)). split.
  - change (tag :: 58 :: payload ++ [newline])
      with ((tag :: 58 :: payload) ++ [newline]).
    apply encode_line.
  - apply encode_no_newline. apply not_elem_of_cons. split; [congruence|].
    apply not_elem_of_cons. split; [lia|exact Hpayload].
Qed.

End Lines.

(** X16.  The stream of a message has one chunk per line of the message
    and two more: three more than the message has line breaks. *)
Theorem frames_count (message : jsstring) :
  List.length (data_stream message) = (line_breaks message + 3)%nat.
Proof.
  unfold data_stream. rewrite length_app, length_map, length_seq, split_length.
  cbn [List.length]. lia.
Qed.

(** X17.  Every chunk of a stream is exactly one line: it ends with a
    line break and holds no other, whatever the message, because the line
    breaks of the message are written as escapes inside the JSON text. *)
Theorem chunks_are_lines (message : jsstring) :
  Forall (fun chunk => exists line, chunk = line ++ [newline] /\ 10 ∉ line)
         (data_stream message).
Proof.
  rewrite data_stream_frames. apply Forall_app. split.
  - induction (resuffix (split newline message)) as [|l ls IH]; [constructor|].
    cbn [List.map]. constructor; [|exact IH].
    apply frame_line; [discriminate|apply stringify_string_no_newline].
  - constructor.
    + apply frame_line; [discriminate|]. exact (finish_step_no_newline message).
    + constructor; [|constructor].
      apply frame_line; [discriminate|]. exact (finish_message_no_newline message).
Qed.

(** X18.  The cookie variant sets the [chatFolderId] cookie exactly when
    the request came without it, or with an empty one: to the new session
    id, for the whole site, for 7776000 seconds (ninety days).  Otherwise
    the response has the two headers of the stream and no other. *)
Theorem set_cookie_only_when_minted
    (w : world) (sw : CookieRoute.session_world) (req : request_body) :
  headers (fst (CookieRoute.POST w sw req))
  = if truthy (CookieRoute.cookies sw !! CookieRoute.cookie_name)
    then stream_headers
    else stream_headers
         ++ [(lit "Set-Cookie",
              lit "chatFolderId="
              ++ CookieRoute.folder_chatId (CookieRoute.resolveChatFolderId sw)
              ++ lit "; Path=/; Max-Age=7776000; SameSite=Lax")].
Proof.
  unfold CookieRoute.POST. destruct (CookieRoute.POST_message w sw req).
  cbn [fst headers]. unfold CookieRoute.resolveChatFolderId.
  destruct (truthy (CookieRoute.cookies sw !! CookieRoute.cookie_name));
    reflexivity.
Qed.

(** X19.  The cookie variant takes the chat id from the cookie alone: the
    ids of the payload, the messages and the selected model change neither
    the response nor the calls. *)
Theorem cookie_route_ignores_payload_ids
    (w : world) (sw : CookieRoute.session_world)
    (msgs : option (list chat_message)) (model cid cid' : option jsstring)
    (imgs : option (list jsstring)) :
  CookieRoute.POST w sw
    {| messages := msgs; selectedModel := model;
       data := Some {| images := imgs; chatId := cid; chat_id := cid' |} |}
  = CookieRoute.POST w sw
      {| messages := None; selectedModel := None;
         data := Some {| images := imgs; chatId := None; chat_id := None |} |}
  /\ forall imageUrl rest,
       imgs = Some (imageUrl :: rest) ->
       CookieRoute.POST_message w sw
         {| messages := msgs; selectedModel := model;
            data := Some {| images := imgs; chatId := cid; chat_id := cid' |} |}
       = try_detect w
           (CookieRoute.folder_chatId (CookieRoute.resolveChatFolderId sw))
           imageUrl.
Proof.
  split; [reflexivity|]. intros imageUrl rest ->. reflexivity.
Qed.

Section Client.

Import CookieRoute.

Lemma cut_app sep l r : sep ∉ l -> cut sep (l ++ sep :: r) = (l, Some r).
Proof.
  induction l as [|c l IH]; intros Hn; cbn [app cut].
  - rewrite N.eqb_refl. reflexivity.
  - apply not_elem_of_cons in Hn as [Hc Hn].
    destruct (N.eqb_spec c sep) as [->|_]; [congruence|].
    rewrite IH by assumption. reflexivity.
Qed.

Lemma cookie_char_plain c :
  cookie_char c = true -> c <> 59 /\ is_space c = false.
Proof.
  unfold cookie_char, is_alnum, is_space.
  cmp_lia; intros; discriminate || (split; [lia|reflexivity]).
Qed.

Lemma cookie_text_Forall s :
  cookie_text s = true -> Forall (fun c => cookie_char c = true) s.
Proof.
  unfold cookie_text. induction s as [|c s IH]; cbn; [constructor|].
  intros [Hc Hs]%andb_prop. constructor; [exact Hc|apply IH, Hs].
Qed.

Lemma trim_start_plain s :
  Forall (fun c => cookie_char c = true) s -> trim_start s = s.
Proof.
  destruct 1 as [|c s Hc _]; [reflexivity|].
  cbn [trim_start]. destruct (cookie_char_plain c Hc) as [_ ->]. reflexivity.
Qed.

Lemma trim_plain s : Forall (fun c => cookie_char c = true) s -> trim s = s.
Proof.
  intros Hs. unfold trim. rewrite (trim_start_plain s Hs).
  rewrite trim_start_plain by (apply List.Forall_rev, Hs).
  apply rev_involutive.
Qed.

Lemma no_semicolon s : Forall (fun c => cookie_char c = true) s -> 59 ∉ s.
Proof.
  induction 1 as [|c s Hc _ IH]; [apply not_elem_of_nil|].
  apply not_elem_of_cons. split; [|exact IH].
  destruct (cookie_char_plain c Hc) as [? _]. congruence.
Qed.

(** The header of a new session, as the client reads it. *)
Lemma read_minted_header folder :
  Forall (fun c => cookie_char c = true) folder ->
  read_set_cookie
    (lit "chatFolderId=" ++ folder ++ lit "; Path=/; Max-Age="
     ++ number_toString (60 * 60 * 24 * 90) ++ lit "; SameSite=Lax")
  = Some (cookie_name, folder, Some 7776000).
Proof.
  intros Hf. unfold read_set_cookie.
  change (lit "; Path=/; Max-Age=" ++ number_toString (60 * 60 * 24 * 90)
          ++ lit "; SameSite=Lax")
    with (59 :: lit " Path=/; Max-Age=7776000; SameSite=Lax").
  rewrite app_assoc, cut_app.
  - change (lit "chatFolderId=" ++ folder) with (cookie_name ++ 61 :: folder).
    rewrite cut_app
      by (apply (bool_decide_eq_false_1 (61 ∈ cookie_name)); reflexivity).
    rewrite (trim_plain folder Hf). reflexivity.
  - intros [H|H]%elem_of_app.
    + revert H. apply (bool_decide_eq_false_1 (59 ∈ lit "chatFolderId=")). reflexivity.
    + exact (no_semicolon folder Hf H).
Qed.

Lemma minted_folder_text iso uuid :
  cookie_text iso = true -> cookie_text uuid = true ->
  Forall (fun c => cookie_char c = true)
    (default [] (split 84 iso !! 0%nat) ++ lit "-"
     ++ default [] (split 45 uuid !! 0%nat)).
Proof.
  intros Hiso%cookie_text_Forall Huuid%cookie_text_Forall.
  destruct (split_head 84 iso) as (today & ? & rest & -> & -> & _ & _).
  destruct (split_head 45 uuid) as (shortRand & ? & rest' & -> & -> & _ & _).
  apply Forall_app in Hiso as [Htoday _]. apply Forall_app in Huuid as [Hshort _].
  cbn [lookup list_lookup default].
  apply Forall_app. split; [exact Htoday|].
  apply Forall_app. split; [repeat constructor|exact Hshort].
Qed.

(** After the response to a request the client holds the session id of
    that request in its cookie. *)
Lemma receive_POST w sw req :
  cookie_text (toISOString sw) = true -> cookie_text (randomUUID sw) = true ->
  receive (cookies sw) (fst (POST w sw req)) !! cookie_name
  = Some (folder_chatId (resolveChatFolderId sw)).
Proof.
  intros Hiso Huuid. unfold POST. destruct (POST_message w sw req) as [message log].
  cbn [fst]. unfold receive, set_cookie_of, resolveChatFolderId.
  cbn [headers].
  destruct (cookies sw !! cookie_name) as [[|c t]|] eqn:Hjar;
    cbn [truthy setCookieHeader folder_chatId default].
  - change (List.find _ (stream_headers ++ [(lit "Set-Cookie", ?h)]))
      with (Some (lit "Set-Cookie", h)).
    cbn [fmap option_fmap option_map snd]. unfold store_set_cookie.
    rewrite read_minted_header by (apply minted_folder_text; assumption).
    apply lookup_insert_eq.
  - exact Hjar.
  - change (List.find _ (stream_headers ++ [(lit "Set-Cookie", ?h)]))
      with (Some (lit "Set-Cookie", h)).
    cbn [fmap option_fmap option_map snd]. unfold store_set_cookie.
    rewrite read_minted_header by (apply minted_folder_text; assumption).
    apply lookup_insert_eq.
Qed.

Lemma receive_existing w jar iso uuid req c t :
  jar !! cookie_name = Some (c :: t) ->
  receive jar
    (fst (POST w {| cookies := jar; toISOString := iso; randomUUID := uuid |} req))
  = jar.
Proof.
  intros Hjar. unfold POST. destruct (POST_message w _ req) as [message log].
  cbn [fst]. unfold receive, set_cookie_of.
  rewrite (resolve_existing
             {| cookies := jar; toISOString := iso; randomUUID := uuid |} c t Hjar).
  reflexivity.
Qed.

Lemma conversation_existing w jar c t calls :
  jar !! cookie_name = Some (c :: t) ->
  conversation w jar calls
  = replicate (List.length calls)
      {| folder_chatId := c :: t; setCookieHeader := None |}.
Proof.
  intros Hjar. induction calls as [|[[iso uuid] req] calls IH]; [reflexivity|].
  cbn [conversation List.length replicate].
  rewrite (resolve_existing _ c t) by exact Hjar.
  rewrite (receive_existing w jar iso uuid req c t) by exact Hjar.
  rewrite IH. reflexivity.
Qed.

End Client.

(** X20.  The session survives the round trip through the client.  A
    client that reads the [Set-Cookie] header of each response (name and
    value up to the first semicolon, dropped when [Max-Age] is zero) and
    sends its cookies with the next request gets the session id of the
    first request for every later request, with no further [Set-Cookie]
    header, whatever the later clock readings and random values are.  The
    clock reading and the UUID of the first request are texts of letters,
    digits, hyphens, colons and full stops. *)
Theorem session_survives_the_round_trip
    (w : world) (jar : gmap (list N) (list N)) (iso uuid : jsstring)
    (req : request_body) (calls : list (jsstring * jsstring * request_body)) :
  CookieRoute.cookie_text iso = true ->
  CookieRoute.cookie_text uuid = true ->
  let sw := {| CookieRoute.cookies := jar; CookieRoute.toISOString := iso;
               CookieRoute.randomUUID := uuid |} in
  let first := CookieRoute.resolveChatFolderId sw in
  CookieRoute.receive jar (fst (CookieRoute.POST w sw req)) !! CookieRoute.cookie_name
  = Some (CookieRoute.folder_chatId first)
  /\ CookieRoute.conversation w jar ((iso, uuid, req) :: calls)
     = first :: replicate (List.length calls)
                  {| CookieRoute.folder_chatId := CookieRoute.folder_chatId first;
                     CookieRoute.setCookieHeader := None |}.
Proof.
  intros Hiso Huuid sw first.
  pose proof (receive_POST w sw req Hiso Huuid) as Hjar. fold first in Hjar.
  split; [exact Hjar|].
  cbn [CookieRoute.conversation]. fold sw first. f_equal.
  pose proof (folder_not_empty sw) as Hne. fold first in Hne.
  destruct (CookieRoute.folder_chatId first) as [|c t]; [congruence|].
  apply conversation_existing, Hjar.
Qed.

Lemma session_survives_the_round_trip_witness :
  let id := lit "2025-09-04-3f2b8c1a" in
  List.map CookieRoute.folder_chatId
    (CookieRoute.conversation sample_world ∅
       [(lit "2025-09-04T10:00:00.000Z", lit "3f2b8c1a-0000-4000-8000-000000000000",
         request_with []);
        (lit "2025-09-05T11:00:00.000Z", lit "77777777-0000-4000-8000-000000000000",
         request_with [lit "https://host/cat.png"]);
        (lit "2025-12-01T12:00:00.000Z", lit "99999999-0000-4000-8000-000000000000",
         request_with [])])
  = [id; id; id].
Proof.
  intros id.
  pose proof (session_survives_the_round_trip sample_world ∅
    (lit "2025-09-04T10:00:00.000Z") (lit "3f2b8c1a-0000-4000-8000-000000000000")
    (request_with [])
    [(lit "2025-09-05T11:00:00.000Z", lit "77777777-0000-4000-8000-000000000000",
      request_with [lit "https://host/cat.png"]);
     (lit "2025-12-01T12:00:00.000Z", lit "99999999-0000-4000-8000-000000000000",
      request_with [])]
    eq_refl eq_refl) as [_ H].
  cbv zeta in H. rewrite H. reflexivity.
Defined.

(** X21.  [JSON.parse] reads back every value [JSON.stringify] writes:
    strings with their escapes, numbers, booleans and nested objects. *)
Theorem json_round_trip (v : JSON.value) : JSON.parse (JSON.stringify v) = Some v.
Proof.
  unfold JSON.parse.
  pose proof (weight_le_bound (weight v) v (le_n _)) as Hw.
  destruct (parse_stringify_fuel (S (List.length (JSON.stringify v)))) as [Hv _].
  rewrite <- (app_nil_r (JSON.stringify v)) at 2.
  rewrite Hv by (lia || reflexivity). reflexivity.
Qed.

(** X22.  The bytes [TextEncoder] writes for a string without unpaired
    surrogates decode to the string. *)
Theorem utf8_round_trip (s : jsstring) :
  Forall code_unit s -> well_formed s = true ->
  TextDecoder_decode (TextEncoder_encode s) = Some s.
Proof.
  intros Hs Hwf. apply decode_encode; assumption.
Qed.

Lemma utf8_round_trip_witness :
  TextEncoder_encode ([55357; 56589] ++ lit " ok " ++ [233; 10060])
  = [240; 159; 148; 141; 32; 111; 107; 32; 195; 169; 226; 157; 140]
  /\ TextDecoder_decode (TextEncoder_encode ([55357; 56589] ++ lit " ok " ++ [233; 10060]))
     = Some ([55357; 56589] ++ lit " ok " ++ [233; 10060]).
Proof.
  split; [reflexivity|].
  apply (utf8_round_trip ([55357; 56589] ++ lit " ok " ++ [233; 10060]));
    [repeat constructor|reflexivity].
Defined.

Section LoneSurrogates.

Lemma well_formed_app_false a b c :
  well_formed a = false -> is_low c = false ->
  well_formed (a ++ c :: b) = false.
Proof.
  intros Ha Hc.
  remember (List.length a) as n eqn:Hn.
  revert a Hn Ha. induction (lt_wf n) as [n _ IH]. intros a -> Ha.
  destruct a as [|x a']; [discriminate|].
  cbn [app well_formed] in *.
  destruct (is_high x).
  - destruct a' as [|d a'']; [cbn [app]; rewrite Hc; reflexivity|].
    cbn [app]. destruct (is_low d); [|reflexivity]. cbn [andb] in *.
    apply (IH (List.length a'')); cbn; lia || reflexivity || assumption.
  - destruct (is_low x); [reflexivity|]. cbn [negb andb] in *.
    apply (IH (List.length a')); cbn; lia || reflexivity || assumption.
Qed.

Lemma code_units_key w chatId image :
  Forall code_unit chatId ->
  Forall code_unit (Key (upload_of w chatId image)).
Proof.
  intros H. unfold upload_of. cbn [Key].
  apply Forall_app. split; [exact H|]. apply ascii_only_code_units.
  apply Forall_app. split; [apply ascii_only_forallb; reflexivity|].
  apply Forall_app. split; [apply ascii_only_number|].
  apply Forall_app. split; [apply ascii_only_forallb; reflexivity|].
  pose proof (guessExt_cases (contentType image)) as Hext.
  repeat (apply elem_of_cons in Hext as [->|Hext];
          [apply ascii_only_forallb; reflexivity|]).
  apply elem_of_nil in Hext. destruct Hext.
Qed.

End LoneSurrogates.

(** X23.  A chat id with an unpaired surrogate cannot be written into the
    address of the prediction request: once the image is uploaded under
    a key that starts with such an id, the request ends with the error
    report [URI malformed], and the detection service is not called. *)
Theorem malformed_chat_id_fails_after_upload
    (w : world) (chatId imageUrl : jsstring) (image : decoded_image)
    (log0 : list event) :
  Forall code_unit chatId -> well_formed chatId = false ->
  resolve_image w imageUrl = (Ok image, log0) ->
  s3_send w (upload_of w chatId image) = Ok tt ->
  try_detect w chatId imageUrl
  = (error_message w URIError,
     log0 ++ [ObjectPut (upload_of w chatId image); ConsoleError URIError]).
Proof.
  intros Hcu Hwf Hres Hput.
  rewrite (try_detect_throw _ _ _ URIError
             (log0 ++ [ObjectPut (upload_of w chatId image)])).
  - rewrite <- app_assoc. reflexivity.
  - rewrite detect_steps, (bind_Ok _ _ _ _ Hres).
    unfold upload_and_predict, request_prediction. cbn [call bind].
    rewrite Hput.
    pose proof (encodeURIComponent_cases _ (code_units_key w chatId image Hcu)) as H.
    destruct (encodeURIComponent (Key (upload_of w chatId image))) as [t|e].
    + destruct H as [H _]. unfold upload_of in H. cbn [Key] in H.
      change (lit "/original/") with (47 :: lit "original/") in H.
      cbn [app] in H. rewrite well_formed_app_false in H by (assumption || reflexivity).
      discriminate H.
    + destruct H as [_ ->]. reflexivity.
Qed.

Lemma malformed_chat_id_fails_after_upload_witness :
  exists cmd,
    try_detect sample_world (lit "chat" ++ [56589]) (lit "data:image/gif;base64,R0lG")
    = (error_message sample_world URIError, [ObjectPut cmd; ConsoleError URIError]).
Proof.
  eexists.
  eapply (malformed_chat_id_fails_after_upload sample_world (lit "chat" ++ [56589])
            (lit "data:image/gif;base64,R0lG") _ []);
    [repeat constructor|reflexivity|reflexivity|reflexivity].
Defined.

(** X24.  The decoder of [Buffer] is lenient and reads the low byte of
    every code unit: a code unit whose low byte is outside the two
    alphabets is skipped, one whose low byte is the padding character ends
    the data, and two texts with the same low bytes decode to the same
    bytes. *)
Theorem base64_decoder_is_lenient (a b : jsstring) (c : N) :
  unbase64 (low_byte c) = None ->
  Buffer_from_base64 (a ++ c :: b)
  = (if low_byte c =? pad then Buffer_from_base64 a
     else Buffer_from_base64 (a ++ b))
  /\ Buffer_from_base64 (List.map low_byte (a ++ c :: b))
     = Buffer_from_base64 (a ++ c :: b).
Proof.
  intros Hc. unfold Buffer_from_base64. split.
  - assert (Hs : sextets (a ++ c :: b)
                 = if low_byte c =? pad then sextets a else sextets (a ++ b)).
    { induction a as [|x a IH]; cbn [app sextets].
      - rewrite Hc. destruct (low_byte c =? pad); reflexivity.
      - destruct (low_byte x =? pad); [destruct (low_byte c =? pad); reflexivity|].
        rewrite IH. destruct (unbase64 (low_byte x)), (low_byte c =? pad);
          reflexivity. }
    rewrite Hs. destruct (low_byte c =? pad); reflexivity.
  - f_equal. induction (a ++ c :: b) as [|x s IH]; [reflexivity|].
    cbn [List.map sextets].
    replace (low_byte (low_byte x)) with (low_byte x)
      by (unfold low_byte; rewrite N.Div0.mod_mod; reflexivity).
    rewrite IH. reflexivity.
Qed.

Lemma base64_decoder_is_lenient_witness :
  Buffer_from_base64 (lit "QU JD") = [65; 66; 67]
  /\ Buffer_from_base64 (lit "QUJD=QUJD") = [65; 66; 67]
  /\ Buffer_from_base64 (lit "QUJD" ++ [317] ++ lit "QUJD") = [65; 66; 67]
  /\ Buffer_from_base64 (lit "QU" ++ [321] ++ lit "JD") = [65; 64; 9].
Proof.
  pose proof (base64_decoder_is_lenient (lit "QU") (lit "JD") 32 eq_refl) as [H1 _].
  pose proof (base64_decoder_is_lenient (lit "QUJD") (lit "QUJD") 61 eq_refl) as [H2 _].
  pose proof (base64_decoder_is_lenient (lit "QUJD") (lit "QUJD") 317 eq_refl) as [H3 _].
  split; [exact H1|]. split; [exact H2|]. split; [exact H3|]. reflexivity.
Defined.

(** X25.  The three kinds of message differ in their first character, so
    a reader can tell the prompt, a success and an error report apart. *)
Theorem messages_are_told_apart (w : world) (p : prediction) (e : thrown) :
  prompt_message <> success_message p
  /\ prompt_message <> error_message w e
  /\ success_message p <> error_message w e
  /\ head (success_message p) = Some 55357
  /\ head (error_message w e) = Some 10060.
Proof.
  unfold success_message, error_message. cbn [app].
  repeat split; discriminate.
Qed.
